(** * AI Syllabus Scheduler: the extraction and calendar pipeline of [main.py]

    A shallow embedding of the three functions of [src/main.py]
    ([extract_deadlines_from_syllabus_tool], [generate_ical_file_tool] and
    [process_syllabus]) together with the parts of the Python runtime they
    call: [str.strip], [str.replace], [str.isalnum], [json.loads],
    [datetime.strptime] with the format [%Y-%m-%d], [os.path.join],
    [os.makedirs] and [open(..., 'w')].

    Conventions.
    - A Python [str] is a list of Unicode code points ([list N]).
    - A raised exception is a value of [exn]; a computation that may raise
      returns a [result].
    - The file system and the console are an explicit [world] that every
      effectful function takes and returns.
    - What lives outside the repository and cannot be written down here (the
      Unicode character database above U+007F, [str()] of values that are
      not strings, the serializer of the [ics] package, [pandas.DataFrame])
      is a field of a class the definitions are generic in.
    - The identifiers that [Event()] draws at random come from a sequence
      held by the [world]; each call takes the next one. *)

From Stdlib Require Import String Ascii NArith ZArith Lia List Bool.
From stdpp Require Import base option list gmap.

Set Warnings "-register-all".
Local Open Scope N_scope.

(* ===================================================================== *)
(** * Python strings *)
(* ===================================================================== *)

Module PyStr.

Abbreviation str := (list N).

(** A literal, code point by code point. *)
Definition lit (s : string) : str :=
  List.map N_of_ascii (list_ascii_of_string s).

(** A literal in which the apostrophe stands for the double quote (U+0022),
    for writing JSON texts. *)
Definition dq (s : string) : str :=
  List.map (fun c => if c =? 39 then 34 else c) (lit s).

Definition in_range (lo hi c : N) : bool := (lo <=? c) && (c <=? hi).

(** The part of the Unicode character database that the program consults
    and that is not spelled out below: [c.isalnum()] for code points above
    U+007F, and the value of the decimal digits (category Nd) above U+007F,
    which [\d] matches and [int()] converts. *)
Class UnicodeDb := {
  uni_isalnum : N -> bool;
  uni_decimal : N -> option N
}.

(** [c.isspace()], the characters [str.strip()] removes: the complete list
    of CPython's [_PyUnicode_IsWhitespace]. *)
Definition isspace (c : N) : bool :=
  in_range 9 13 c || in_range 28 32 c || (c =? 133) || (c =? 160)
  || (c =? 5760) || in_range 8192 8202 c || (c =? 8232) || (c =? 8233)
  || (c =? 8239) || (c =? 8287) || (c =? 12288).

Definition ascii_isalnum (c : N) : bool :=
  in_range 48 57 c || in_range 65 90 c || in_range 97 122 c.

(** [c.isalnum()] *)
Definition isalnum `{UnicodeDb} (c : N) : bool :=
  if c <? 128 then ascii_isalnum c else uni_isalnum c.

(** The value of a decimal digit, as [int()] reads it. *)
Definition decimal `{UnicodeDb} (c : N) : option N :=
  if in_range 48 57 c then Some (c - 48)
  else if c <? 128 then None else uni_decimal c.

(** The longest prefix of characters satisfying [f], and what follows it. *)
Fixpoint takewhile (f : N -> bool) (s : str) : str :=
  match s with
  | c :: s' => if f c then c :: takewhile f s' else []
  | [] => []
  end.

Fixpoint dropwhile (f : N -> bool) (s : str) : str :=
  match s with
  | c :: s' => if f c then dropwhile f s' else s
  | [] => []
  end.

(** [s.lstrip()], [s.rstrip()], [s.strip()] *)
Fixpoint lstrip (s : str) : str :=
  match s with
  | c :: s' => if isspace c then lstrip s' else s
  | [] => []
  end.

Definition rstrip (s : str) : str := rev (lstrip (rev s)).

Definition strip (s : str) : str := rstrip (lstrip s).

(** [s.startswith(p)] *)
Fixpoint startswith (p s : str) : bool :=
  match p, s with
  | [], _ => true
  | a :: p', b :: s' => (a =? b) && startswith p' s'
  | _ :: _, [] => false
  end.


(** The scan of [s.replace(old, new)] for a non-empty [old]: left to right,
    a match is replaced and the scan resumes after it ([skip] counts the
    characters of the current match still to pass over). *)
Fixpoint replace_scan (old new : str) (skip : nat) (s : str) : str :=
  match s with
  | [] => []
  | c :: s' =>
    match skip with
    | S k => replace_scan old new k s'
    | O =>
      if startswith old s
      then new ++ replace_scan old new (Nat.pred (length old)) s'
      else c :: replace_scan old new 0 s'
    end
  end.

(** [s.replace(old, new)]; with an empty [old] Python puts [new] before
    every character and at the end. *)
Definition replace (old new s : str) : str :=
  match old with
  | [] => new ++ flat_map (fun c => c :: new) s
  | _ :: _ => replace_scan old new 0 s
  end.

(** [sep.join(parts)] *)
Fixpoint join (sep : str) (parts : list str) : str :=
  match parts with
  | [] => []
  | [p] => p
  | p :: rest => p ++ sep ++ join sep rest
  end.

End PyStr.
Import PyStr.

(* ===================================================================== *)
(** * Python values, exceptions and results *)
(* ===================================================================== *)

Module Py.

(** The exceptions the program can meet. [JSONDecodeError] is a subclass of
    [ValueError], [UnboundLocalError] of [NameError], [OverflowError] of
    [ArithmeticError]; the [OSError] subclasses are the ones the file
    operations raise; [OtherException] stands for any further subclass of
    [Exception]. *)
Inductive exn :=
| JSONDecodeError
| RecursionError
| AttributeError
| UnboundLocalError
| KeyError (key : str)
| ValueError
| TypeError
| OverflowError
| FileExistsError
| FileNotFoundError
| IsADirectoryError
| OtherException (name : str).

(** [isinstance(e, ValueError)] and [isinstance(e, KeyError)] *)
Definition is_ValueError (e : exn) : bool :=
  match e with
  | ValueError | JSONDecodeError => true
  | _ => false
  end.

Definition is_KeyError (e : exn) : bool :=
  match e with
  | KeyError _ => true
  | _ => false
  end.

Inductive result (A : Type) :=
| Ret (a : A)
| Raise (e : exn).
Arguments Ret {A} a.
Arguments Raise {A} e.

Definition bind {A B} (r : result A) (k : A -> result B) : result B :=
  match r with
  | Ret a => k a
  | Raise e => Raise e
  end.

(** The objects [json.loads] builds. A [float] is kept as the text it was
    read from ([VFloat]); a [dict] keeps its keys in insertion order, each
    key once. *)
Inductive value :=
| VNone
| VBool (b : bool)
| VInt (z : Z)
| VFloat (lexeme : str)
| VStr (s : str)
| VList (items : list value)
| VDict (members : list (str * value)).

(** [d[k] = v] on a dict *)
Fixpoint dict_set (k : str) (v : value) (d : list (str * value)) : list (str * value) :=
  match d with
  | [] => [(k, v)]
  | (k', v') :: d' =>
    if decide (k' = k) then (k, v) :: d' else (k', v') :: dict_set k v d'
  end.

(** [dict(pairs)] *)
Definition dict_of_pairs (pairs : list (str * value)) : list (str * value) :=
  fold_left (fun d kv => dict_set (fst kv) (snd kv) d) pairs [].

Fixpoint dict_get (k : str) (d : list (str * value)) : option value :=
  match d with
  | [] => None
  | (k', v) :: d' => if decide (k' = k) then Some v else dict_get k d'
  end.

(** [item[key]] with a string key: a dict looks the key up, every other
    object raises [TypeError] (a list or a string wants an integer index,
    the rest is not subscriptable). *)
Definition subscript (item : value) (key : str) : result value :=
  match item with
  | VDict d =>
    match dict_get key d with
    | Some v => Ret v
    | None => Raise (KeyError key)
    end
  | _ => Raise TypeError
  end.

(** Digits of a decimal numeral, most significant first. *)
Definition digits_value (ds : list N) : N :=
  fold_left (fun acc d => 10 * acc + d) ds 0.

(** Whether the text of a float denotes zero once rounded to a double:
    the mantissa [m] (an integer) times [10 ^ e] rounds to zero exactly
    when it is at most [2 ^ -1075], half of the least subnormal. *)
Definition rounds_to_zero (m : N) (e : Z) : bool :=
  (m =? 0)
  || ((e <? 0)%Z && (m * 2 ^ 1075 <=? 10 ^ Z.to_N (- e))).

Definition ascii_digit (c : N) : bool := in_range 48 57 c.

(** The number a run of ASCII digits denotes. *)
Definition ascii_number (s : str) : N :=
  digits_value (List.map (fun c => c - 48) s).

(** Splits [1.25e-3] into mantissa digits [125] and exponent [-3 - 2]. *)
Definition float_parts (lexeme : str) : N * Z :=
  let unsigned := match lexeme with
                  | c :: r => if c =? 45 then r else lexeme
                  | [] => []
                  end in
  let int_ds := takewhile ascii_digit unsigned in
  let r1 := dropwhile ascii_digit unsigned in
  let frac_ds := match r1 with
                 | c :: r => if c =? 46 then takewhile ascii_digit r else []
                 | [] => []
                 end in
  let r2 := match r1 with
            | c :: r => if c =? 46 then dropwhile ascii_digit r else r1
            | [] => []
            end in
  let ex : Z := match r2 with
            | _ :: s :: r =>
              if s =? 45 then Z.opp (Z.of_N (ascii_number r))
              else if s =? 43 then Z.of_N (ascii_number r)
              else Z.of_N (ascii_number (s :: r))
            | _ => 0%Z
            end in
  (ascii_number (int_ds ++ frac_ds),
   (ex - Z.of_nat (length frac_ds))%Z).

Definition float_is_zero (lexeme : str) : bool :=
  match lexeme with
  | c :: _ =>
    if ascii_digit c || (c =? 45) && negb (startswith (lit "-Infinity") lexeme)
    then let (m, e) := float_parts lexeme in rounds_to_zero m e
    else false   (* NaN, Infinity *)
  | [] => false
  end.

(** [bool(v)], the test of [if not v] *)
Definition truthy (v : value) : bool :=
  match v with
  | VNone => false
  | VBool b => b
  | VInt z => negb (z =? 0)%Z
  | VFloat x => negb (float_is_zero x)
  | VStr s => negb (bool_decide (s = []))
  | VList l => negb (bool_decide (l = []))
  | VDict d => negb (bool_decide (d = []))
  end.

(** [for item in v]: the items a loop over [v] visits. A dict yields its
    keys, a string its characters; the other objects are not iterable. *)
Definition iterate (v : value) : result (list value) :=
  match v with
  | VList l => Ret l
  | VDict d => Ret (List.map (fun kv => VStr (fst kv)) d)
  | VStr s => Ret (List.map (fun c => VStr [c]) s)
  | _ => Raise TypeError
  end.

(** What the program needs of [str()] and of f-string formatting: a string
    formats as itself; the text of any other object is the runtime's. *)
Class Formatting := { str_of_object : value -> str }.

Definition format `{Formatting} (v : value) : str :=
  match v with
  | VStr s => s
  | _ => str_of_object v
  end.

End Py.
Import Py.

(* ===================================================================== *)
(** * [json.loads] *)
(* ===================================================================== *)

(** The decoder of CPython's [json] package with its default settings
    (strict strings, [NaN] and [Infinity] accepted), written as the
    recursive descent of [json/scanner.py] and [json/decoder.py]. The
    recursion limit of the interpreter is not modelled: nesting of any depth
    is decoded. *)
Module Json.

(** The outcome of scanning at a position: a value and the text after it,
    no value there ([Bad], which [decode] turns into [JSONDecodeError]), or
    the recursion budget used up ([Deep]). *)
Inductive parse (A : Type) :=
| Got (a : A) (rest : str)
| Bad
| Deep.
Arguments Got {A} a rest.
Arguments Bad {A}.
Arguments Deep {A}.

(** The characters of [WHITESPACE]: space, tab, line feed, carriage return. *)
Definition is_ws (c : N) : bool :=
  (c =? 32) || (c =? 9) || (c =? 10) || (c =? 13).

Definition skip_ws (s : str) : str := dropwhile is_ws s.

(** [s[len(p):]] when [s.startswith(p)] *)
Fixpoint after (p s : str) : option str :=
  match p, s with
  | [], _ => Some s
  | a :: p', b :: s' => if a =? b then after p' s' else None
  | _ :: _, [] => None
  end.

Definition hex_value (c : N) : option N :=
  if in_range 48 57 c then Some (c - 48)
  else if in_range 97 102 c then Some (c - 87)
  else if in_range 65 70 c then Some (c - 55)
  else None.

(** [BACKSLASH]: the one-character escapes. *)
Definition unescape (c : N) : option N :=
  if c =? 34 then Some 34
  else if c =? 92 then Some 92
  else if c =? 47 then Some 47
  else if c =? 98 then Some 8
  else if c =? 102 then Some 12
  else if c =? 110 then Some 10
  else if c =? 114 then Some 13
  else if c =? 116 then Some 9
  else None.

Definition is_high_surrogate (u : N) : bool := in_range 55296 56319 u.
Definition is_low_surrogate (u : N) : bool := in_range 56320 57343 u.

Definition join_surrogates (hi lo : N) : N :=
  65536 + (hi - 55296) * 1024 + (lo - 56320).

(** [scanstring] reads the characters after the opening quote one by one.
    Where it stands: in plain text ([SText]); after a backslash ([SEsc]);
    inside the four hexadecimal digits of a [\u] escape, with the digits
    still to come, the value so far and the high surrogate of the escape
    just before, if one waits for its pair ([SHex]); after the escape of a
    high surrogate ([SHigh]) and after a backslash following it
    ([SHighEsc]). *)
Inductive sstate :=
| SText
| SEsc
| SHex (more : nat) (acc : N) (pending : option N)
| SHigh (hi : N)
| SHighEsc (hi : N).

(** What a character does: it closes the string ([Stop]), it is consumed
    ([Go]), each with the code points it completes, or it is an error
    ([Err]: a control character, an unknown escape, a digit that is not
    hexadecimal). *)
Inductive sstep :=
| Stop (out : list N)
| Go (out : list N) (next : sstate)
| Err.

Definition text_step (c : N) : sstep :=
  if c =? 34 then Stop []
  else if c =? 92 then Go [] SEsc
  else if c <=? 31 then Err
  else Go [c] SText.

Definition esc_step (pending : option N) (e : N) : sstep :=
  if e =? 117 then Go [] (SHex 3 0 pending)
  else
    match unescape e with
    | Some x => Go (from_option (fun hi => [hi; x]) [x] pending) SText
    | None => Err
    end.

(** The escape [\uXXXX] is complete with the value [u]. A low surrogate
    joins the high surrogate waiting for it; otherwise the waiting one
    stands alone, and [u] waits in turn if it is a high surrogate. *)
Definition hex_done (pending : option N) (u : N) : sstep :=
  match pending with
  | Some hi =>
    if is_low_surrogate u then Go [join_surrogates hi u] SText
    else if is_high_surrogate u then Go [hi] (SHigh u)
    else Go [hi; u] SText
  | None =>
    if is_high_surrogate u then Go [] (SHigh u) else Go [u] SText
  end.

Definition string_step (st : sstate) (c : N) : sstep :=
  match st with
  | SText => text_step c
  | SEsc => esc_step None c
  | SHex more acc pending =>
    match hex_value c with
    | None => Err
    | Some d =>
      match more with
      | O => hex_done pending (acc * 16 + d)
      | S k => Go [] (SHex k (acc * 16 + d) pending)
      end
    end
  | SHigh hi =>
    if c =? 92 then Go [] (SHighEsc hi)
    else
      match text_step c with
      | Stop out => Stop (hi :: out)
      | Go out next => Go (hi :: out) next
      | Err => Err
      end
  | SHighEsc hi => esc_step (Some hi) c
  end.

Definition prepend (out : list N) (r : option (str * str)) : option (str * str) :=
  match r with
  | Some (s, rest) => Some (out ++ s, rest)
  | None => None
  end.

(** The decoded string and the text after the closing quote; a text that
    ends before the closing quote is an error. *)
Fixpoint scan_chars (st : sstate) (s : str) : option (str * str) :=
  match s with
  | [] => None
  | c :: r =>
    match string_step st c with
    | Stop out => Some (out, r)
    | Go out next => prepend out (scan_chars next r)
    | Err => None
    end
  end.

(** [scanstring], entered after the opening quote, in strict mode. *)
Definition scanstring (s : str) : option (str * str) := scan_chars SText s.

(** The optional fraction of [NUMBER_RE]: a dot and at least one digit. *)
Definition frac_span (s : str) : str * str :=
  match s with
  | p :: r =>
    if p =? 46 then
      match takewhile ascii_digit r with
      | [] => ([], s)
      | ds => (p :: ds, dropwhile ascii_digit r)
      end
    else ([], s)
  | [] => ([], s)
  end.

(** The optional exponent of [NUMBER_RE]: [e] or [E], an optional sign and
    at least one digit. *)
Definition exp_span (s : str) : str * str :=
  match s with
  | e :: r =>
    if (e =? 101) || (e =? 69) then
      let (sign, r') := match r with
                        | g :: rr => if (g =? 45) || (g =? 43) then ([g], rr) else ([], r)
                        | [] => ([], r)
                        end in
      match takewhile ascii_digit r' with
      | [] => ([], s)
      | ds => (e :: sign ++ ds, dropwhile ascii_digit r')
      end
    else ([], s)
  | [] => ([], s)
  end.

(** The integer part of [NUMBER_RE]: an optional minus sign, then a single
    zero or a digit from 1 to 9 with any digits after it. *)
Definition int_span (s : str) : option (bool * str * str) :=
  let (neg, s0) := match s with
                   | c :: r => if c =? 45 then (true, r) else (false, s)
                   | [] => (false, s)
                   end in
  match s0 with
  | d :: r =>
    if d =? 48 then Some (neg, [d], r)
    else if in_range 49 57 d
         then Some (neg, d :: takewhile ascii_digit r, dropwhile ascii_digit r)
         else None
  | [] => None
  end.

(** [NUMBER_RE], and the conversion: [int] without fraction and exponent,
    [float] otherwise. *)
Definition match_number (s : str) : option (value * str) :=
  match int_span s with
  | None => None
  | Some (neg, ints, r1) =>
    let (frac, r2) := frac_span r1 in
    let (ex, r3) := exp_span r2 in
    match frac ++ ex with
    | [] => Some (VInt (if neg : bool then Z.opp (Z.of_N (ascii_number ints))
                        else Z.of_N (ascii_number ints)), r3)
    | _ :: _ => Some (VFloat ((if neg : bool then [45] else []) ++ ints ++ frac ++ ex), r3)
    end
  end.

(** The constants and numbers of [_scan_once], tried in its order. *)
Definition scan_scalar (s : str) : option (value * str) :=
  match after (lit "null") s with
  | Some r => Some (VNone, r)
  | None =>
  match after (lit "true") s with
  | Some r => Some (VBool true, r)
  | None =>
  match after (lit "false") s with
  | Some r => Some (VBool false, r)
  | None =>
  match match_number s with
  | Some vr => Some vr
  | None =>
  match after (lit "NaN") s with
  | Some r => Some (VFloat (lit "NaN"), r)
  | None =>
  match after (lit "Infinity") s with
  | Some r => Some (VFloat (lit "Infinity"), r)
  | None =>
  match after (lit "-Infinity") s with
  | Some r => Some (VFloat (lit "-Infinity"), r)
  | None => None
  end end end end end end end.

Definition of_option {A} (o : option (A * str)) : parse A :=
  match o with
  | Some (a, r) => Got a r
  | None => Bad
  end.

(** [_scan_once], [JSONArray] and [JSONObject]. [JSONArray] and
    [JSONObject] are entered after the opening bracket; [array_items] and
    [object_items] are their loops, the latter entered after the opening
    quote of a key. *)
Fixpoint scan_once (fuel : nat) (s : str) : parse value :=
  match fuel with
  | O => Deep
  | S f =>
    match s with
    | [] => Bad
    | c :: s1 =>
      if c =? 34 then
        match scanstring s1 with
        | Some (x, r) => Got (VStr x) r
        | None => Bad
        end
      else if c =? 123 then JSONObject f s1
      else if c =? 91 then JSONArray f s1
      else of_option (scan_scalar s)
    end
  end
with JSONArray (fuel : nat) (s : str) : parse value :=
  match fuel with
  | O => Deep
  | S f =>
    match skip_ws s with
    | [] => Bad
    | c :: r => if c =? 93 then Got (VList []) r else array_items f [] (c :: r)
    end
  end
with array_items (fuel : nat) (acc : list value) (s : str) : parse value :=
  match fuel with
  | O => Deep
  | S f =>
    match scan_once f s with
    | Got v r =>
      match skip_ws r with
      | [] => Bad
      | c :: r1 =>
        if c =? 93 then Got (VList (acc ++ [v])) r1
        else if c =? 44 then array_items f (acc ++ [v]) (skip_ws r1)
        else Bad
      end
    | Bad => Bad
    | Deep => Deep
    end
  end
with JSONObject (fuel : nat) (s : str) : parse value :=
  match fuel with
  | O => Deep
  | S f =>
    match skip_ws s with
    | [] => Bad
    | c :: r =>
      if c =? 125 then Got (VDict []) r
      else if c =? 34 then object_items f [] r
      else Bad
    end
  end
with object_items (fuel : nat) (pairs : list (str * value)) (s : str) : parse value :=
  match fuel with
  | O => Deep
  | S f =>
    match scanstring s with
    | None => Bad
    | Some (key, r) =>
      match skip_ws r with
      | [] => Bad
      | c :: r1 =>
        if c =? 58 then
          match scan_once f (skip_ws r1) with
          | Got v r2 =>
            match skip_ws r2 with
            | [] => Bad
            | d :: r3 =>
              if d =? 125 then Got (VDict (dict_of_pairs (pairs ++ [(key, v)]))) r3
              else if d =? 44 then
                match skip_ws r3 with
                | [] => Bad
                | q :: r4 =>
                  if q =? 34 then object_items f (pairs ++ [(key, v)]) r4 else Bad
                end
              else Bad
            end
          | Bad => Bad
          | Deep => Deep
          end
        else Bad
      end
    end
  end.

(** [json.loads(s)] for a [str]: a leading byte order mark is refused, the
    value may stand between whitespace, and nothing else may follow it. The
    budget is one that the scan of [s] cannot use up ([loads_budget]
    below). *)
Definition json_loads (s : str) : result value :=
  if startswith [65279] s then Raise JSONDecodeError
  else
    match scan_once (3 * length s + 1) (skip_ws s) with
    | Got v r =>
      match skip_ws r with
      | [] => Ret v
      | _ :: _ => Raise JSONDecodeError
      end
    | Bad => Raise JSONDecodeError
    | Deep => Raise RecursionError
    end.

End Json.
Import Json.

(* ===================================================================== *)
(** * [datetime.strptime(s, "%Y-%m-%d").date()] *)
(* ===================================================================== *)

Module Datetime.

(** [datetime.date] *)
Record date := mkdate { year : N; month : N; day : N }.

Definition is_leap (y : N) : bool :=
  (y mod 4 =? 0) && (negb (y mod 100 =? 0) || (y mod 400 =? 0)).

Definition days_in_month (y m : N) : N :=
  if m =? 2 then (if is_leap y then 29 else 28)
  else if (m =? 4) || (m =? 6) || (m =? 9) || (m =? 11) then 30
  else 31.

(** The constructor [date(year, month, day)], which raises [ValueError]
    outside [MINYEAR..MAXYEAR], outside the twelve months and outside the
    days of the month. *)
Definition make_date (y m d : N) : option date :=
  if in_range 1 9999 y && in_range 1 12 m && in_range 1 (days_in_month y m) d
  then Some (mkdate y m d)
  else None.

Section Strptime.
Context `{UnicodeDb}.

(** [\d] in a [str] pattern: any Unicode decimal digit. *)
Definition is_decimal (c : N) : bool :=
  match decimal c with
  | Some _ => true
  | None => false
  end.

(** The ways a piece of the pattern matches at the start of a text, in the
    order the regular expression engine tries them: each is the text
    matched and the text after it. *)
Definition one (p : N -> bool) (s : str) : list (str * str) :=
  match s with
  | a :: r => if p a then [([a], r)] else []
  | [] => []
  end.

Definition two (p q : N -> bool) (s : str) : list (str * str) :=
  match s with
  | a :: b :: r => if p a && q b then [([a; b], r)] else []
  | _ => []
  end.

(** [%Y]: four decimal digits. *)
Definition year_group (s : str) : list (str * str) :=
  match s with
  | a :: b :: c :: d :: r =>
    if is_decimal a && is_decimal b && is_decimal c && is_decimal d
    then [([a; b; c; d], r)] else []
  | _ => []
  end.

(** [%m]: [1[0-2]|0[1-9]|[1-9]] *)
Definition month_group (s : str) : list (str * str) :=
  two (N.eqb 49) (in_range 48 50) s
  ++ two (N.eqb 48) (in_range 49 57) s
  ++ one (in_range 49 57) s.

(** [%d]: [3[0-1]|[1-2]\d|0[1-9]|[1-9]| [1-9]] *)
Definition day_group (s : str) : list (str * str) :=
  two (N.eqb 51) (in_range 48 49) s
  ++ two (in_range 49 50) is_decimal s
  ++ two (N.eqb 48) (in_range 49 57) s
  ++ one (in_range 49 57) s
  ++ two (N.eqb 32) (in_range 49 57) s.

Definition dash (s : str) : list str :=
  match s with
  | c :: r => if c =? 45 then [r] else []
  | [] => []
  end.

(** The match of the compiled format at the start of [s]: the first way,
    in backtracking order, in which year, dash, month, dash and day follow
    each other; the three groups and the unmatched rest. *)
Definition match_format (s : str) : option (str * str * str * str) :=
  head
    (flat_map (fun y =>
     flat_map (fun r1 =>
     flat_map (fun m =>
     flat_map (fun r2 =>
     List.map (fun d => (fst y, fst m, fst d, snd d)) (day_group r2))
       (dash (snd m)))
       (month_group r1))
       (dash (snd y)))
       (year_group s)).

(** [int(s)] for a text of digits between optional whitespace. *)
Definition int_of (s : str) : option N :=
  match strip s with
  | [] => None
  | ds => digits_value <$> mapM decimal ds
  end.

(** [datetime.strptime(s, "%Y-%m-%d").date()]: [ValueError] when the text
    does not match the format, when text remains after the match, and when
    the numbers are no date. *)
Definition strptime (s : str) : result date :=
  match match_format s with
  | None => Raise ValueError
  | Some (y, m, d, rest) =>
    match rest with
    | _ :: _ => Raise ValueError
    | [] =>
      match int_of y, int_of m, int_of d with
      | Some y', Some m', Some d' =>
        match make_date y' m' d' with
        | Some dt => Ret dt
        | None => Raise ValueError
        end
      | _, _, _ => Raise ValueError
      end
    end
  end.

End Strptime.


End Datetime.
Import Datetime.

(** A character database with nothing above U+007F, for evaluating the
    definitions on ASCII texts. *)
Definition ascii_only : UnicodeDb :=
  {| uni_isalnum := fun _ => false; uni_decimal := fun _ => None |}.

(* ===================================================================== *)
(** * Paths and files *)
(* ===================================================================== *)

(** POSIX paths ([posixpath]) and a file system in which a path is known by
    its text: the directories that exist and the text files with their
    content. Paths are not normalised ([.], [..] and links are not
    resolved), and what is written is the text itself, not an encoding of
    it. *)
Module OS.

Definition sep : N := 47.

(** [os.path.join(a, b)] *)
Definition path_join (a b : str) : str :=
  if startswith [sep] b then b
  else match last a with
       | None => a ++ b
       | Some c => if c =? sep then a ++ b else a ++ sep :: b
       end.

(** [os.path.basename(p)]: what follows the last separator. *)
Definition basename (p : str) : str :=
  rev (takewhile (fun c => negb (c =? sep)) (rev p)).

(** A prefix that names a path component: not empty and not ending in a
    separator. *)
Definition names_component (pre : str) : bool :=
  match last pre with
  | Some c => negb (c =? sep)
  | None => false
  end.

(** The path [pre ++ s] and its ancestors that end inside [s], outermost
    first: [lineage [] "a/b/c"] is ["a"; "a/b"; "a/b/c"]. *)
Fixpoint lineage (pre s : str) : list str :=
  match s with
  | [] => if names_component pre then [pre] else []
  | c :: s' =>
    (if (c =? sep) && names_component pre then [pre] else [])
    ++ lineage (pre ++ [c]) s'
  end.

Record filesystem := {
  dirs : gset (list N);
  files : gmap (list N) (list N)
}.

Definition add_dir (p : str) (fs : filesystem) : filesystem :=
  {| dirs := {[p]} ∪ dirs fs; files := files fs |}.

Definition put_file (p content : str) (fs : filesystem) : filesystem :=
  {| dirs := dirs fs; files := <[p := content]> (files fs) |}.

Definition is_file (p : str) (fs : filesystem) : bool :=
  bool_decide (is_Some (files fs !! p)).

Definition is_dir (p : str) (fs : filesystem) : bool :=
  bool_decide (p ∈ dirs fs).

(** Creating the directories of a lineage in turn; a path that is a file
    stops it, and what was created before stays. *)
Fixpoint mkdirs (ps : list str) (fs : filesystem) : result unit * filesystem :=
  match ps with
  | [] => (Ret tt, fs)
  | p :: ps' =>
    if is_file p fs then (Raise FileExistsError, fs)
    else mkdirs ps' (add_dir p fs)
  end.

(** [os.makedirs(name, exist_ok=True)] *)
Definition makedirs (name : str) (fs : filesystem) : result unit * filesystem :=
  match name with
  | [] => (Raise FileNotFoundError, fs)
  | _ :: _ => mkdirs (lineage [] name) fs
  end.

(** The directories a file at [p] lies in. *)
Definition parents (p : str) : list str := removelast (lineage [] p).

(** [with open(p, 'w') as f: f.writelines(lines)]: the file is created or
    truncated and holds the lines one after the other. Opening fails when
    [p] is a directory and when a directory it lies in does not exist. *)
Definition write_lines (p : str) (lines : list str) (fs : filesystem)
  : result unit * filesystem :=
  if is_dir p fs then (Raise IsADirectoryError, fs)
  else if negb (names_component p) then (Raise FileNotFoundError, fs)
  else if forallb (fun d => is_dir d fs) (parents p)
       then (Ret tt, put_file p (concat lines) fs)
       else (Raise FileNotFoundError, fs).

End OS.
Import OS.

(* ===================================================================== *)
(** * The [ics] package *)
(* ===================================================================== *)

Module Ics.

(** An [Event] as far as the program touches it: the identifier that
    [Event()] draws for the new object, a random one that the serializer
    writes as the [UID] of the event, and the attributes the program
    assigns. *)
Record Event := {
  ev_uid : list N;
  ev_name : option (list N);
  ev_begin : option date;
  ev_all_day : bool
}.

(** [Event()], with the identifier it has drawn. *)
Definition new_event (uid : str) : Event :=
  {| ev_uid := uid; ev_name := None; ev_begin := None; ev_all_day := false |}.

Definition set_name (n : str) (e : Event) : Event :=
  {| ev_uid := ev_uid e; ev_name := Some n; ev_begin := ev_begin e;
     ev_all_day := ev_all_day e |}.

Definition set_begin (d : date) (e : Event) : Event :=
  {| ev_uid := ev_uid e; ev_name := ev_name e; ev_begin := Some d;
     ev_all_day := ev_all_day e |}.

(** [date.max], the last day that [datetime] can hold. *)
Definition is_last_day (d : date) : bool :=
  (year d =? 9999) && (month d =? 12) && (day d =? 31).

(** [event.make_all_day()]: the begin is floored to its day, for which
    the package computes the span of that day and with it the start of the
    following day. For the last day of the year 9999 there is no following
    day and the addition raises [OverflowError]. An event without a begin,
    which the program never makes, has nothing to floor ([AttributeError]
    on [None]). *)
Definition make_all_day (e : Event) : result Event :=
  match ev_begin e with
  | None => Raise AttributeError
  | Some d =>
    if is_last_day d then Raise OverflowError
    else Ret {| ev_uid := ev_uid e; ev_name := ev_name e; ev_begin := ev_begin e;
                ev_all_day := true |}
  end.

(** [Calendar().events] holds the event objects added to it; they are kept
    here in the order of their addition. [events_add] is [cal.events.add]:
    the object added is a new one each time, so nothing is merged. *)
Definition Calendar := list Event.

Definition new_calendar : Calendar := [].

Definition events_add (e : Event) (cal : Calendar) : Calendar := cal ++ [e].

(** The serializer: the lines that iterating over a [Calendar] yields, a
    function of its events, identifiers included. *)
Class Serializer := { calendar_lines : Calendar -> list (list N) }.

End Ics.
Import Ics.

(* ===================================================================== *)
(** * The program: [main.py] *)
(* ===================================================================== *)

Module Main.

(** What [print] writes, one constructor per call site. *)
Inductive message :=
| MsgUsingGemini                         (* TOOL: Using Gemini to extract ... *)
| MsgExtracted                           (* TOOL: Successfully extracted ... *)
| MsgParseError (e : exn) (raw : str)    (* Error parsing JSON from Gemini response: ... *)
| MsgUnexpected (e : exn)                (* An unexpected error occurred ... *)
| MsgGenerating                          (* TOOL: Generating .ics calendar file... *)
| MsgSkipping (item : value) (e : exn)   (* Skipping invalid item: ... *)
| MsgSaved (filepath : str).             (* TOOL: Calendar file saved to ... *)

(** The world of the program: the file system, the console, and the
    source of randomness from which [Event()] takes its identifiers:
    [uuids] is the sequence of identifiers the source yields, [drawn] how
    many of them were taken. *)
Record world := {
  disk : filesystem;
  console : list message;
  uuids : nat -> list N;
  drawn : nat
}.

(** A computation: it reads and changes the world, and returns or raises. *)
Definition M (A : Type) : Type := world -> result A * world.

Definition ret {A} (a : A) : M A := fun w => (Ret a, w).

Definition raise {A} (e : exn) : M A := fun w => (Raise e, w).

Definition mbind {A B} (c : M A) (k : A -> M B) : M B :=
  fun w =>
    match c w with
    | (Ret a, w') => k a w'
    | (Raise e, w') => (Raise e, w')
    end.

Notation "'do' x <- c ; k" := (mbind c (fun x => k))
  (at level 10, x name, c at level 100, k at level 200).

(** A pure step that may raise. *)
Definition lift {A} (r : result A) : M A := fun w => (r, w).

Definition print (m : message) : M unit :=
  fun w => (Ret tt, {| disk := disk w; console := console w ++ [m];
                       uuids := uuids w; drawn := drawn w |}).

(** A step on the file system. *)
Definition on_disk {A} (op : filesystem -> result A * filesystem) : M A :=
  fun w =>
    let (r, d) := op (disk w) in
    (r, {| disk := d; console := console w; uuids := uuids w; drawn := drawn w |}).

(** [Event()]: a new event with the next identifier of the source. *)
Definition Event_new : M Event :=
  fun w => (Ret (new_event (uuids w (drawn w))),
            {| disk := disk w; console := console w;
               uuids := uuids w; drawn := S (drawn w) |}).

(** ** The extractor *)

(** The object [model.generate_content] returns, as far as the program
    touches it: its attribute [text], which may be missing. *)
Inductive response := Response (text : option (list N)).

(** [response.text] *)
Definition get_text (r : response) : result str :=
  match r with
  | Response (Some t) => Ret t
  | Response None => Raise AttributeError
  end.

Definition prompt_head : str :=
  join [10]
    (List.map dq
    [EmptyString;
     "    You are an expert academic assistant. Your job is to analyze the following course syllabus text and extract all important deadlines.";
     "    The output must be a valid JSON array of objects.";
     EmptyString;
     "    Each object in the array represents a single piece of coursework and must have three keys:";
     "    1. 'assignment_name': A concise name for the coursework (e.g., 'Essay 1', 'Midterm Exam').";
     "    2. 'due_date': The deadline for the assignment in 'YYYY-MM-DD' format.";
     "    3. 'assignment_type': The type of coursework. Choose from: 'Essay', 'Quiz', 'Exam', 'Project', 'Presentation', 'Other'.";
     EmptyString;
     "    Syllabus Text:";
     "    ---";
     "    "]%string).

Definition prompt_tail : str :=
  join [10]
    (List.map dq
    [EmptyString;
     "    ---";
     EmptyString;
     "    Analyze the text carefully. Pay attention to dates, assignment descriptions, and types.";
     "    Return ONLY the raw JSON array. Do not include any other text or formatting.";
     "    Example:";
     "    [";
     "      {'assignment_name': 'Problem Set 1', 'due_date': '2025-09-15', 'assignment_type': 'Project'},";
     "      {'assignment_name': 'Midterm Examination', 'due_date': '2025-10-20', 'assignment_type': 'Exam'}";
     "    ]";
     "    "]%string).

Definition fence_json : str := lit "```json".
Definition fence : str := lit "```".

(** The cleaning of the response text: [strip()], then [replace] of the
    opening fence by nothing, then [replace] of the bare fence by nothing. *)
Definition clean_response (text : str) : str :=
  replace fence [] (replace fence_json [] (strip text)).

Definition is_JSONDecodeError (e : exn) : bool :=
  match e with
  | JSONDecodeError => true
  | _ => false
  end.

Definition is_AttributeError (e : exn) : bool :=
  match e with
  | AttributeError => true
  | _ => false
  end.

(** Reading the local variable [response]: it is bound once
    [generate_content] has returned. *)
Definition read_response (call : result response) : result response :=
  match call with
  | Ret r => Ret r
  | Raise _ => Raise UnboundLocalError
  end.

(** [extract_deadlines_from_syllabus_tool(syllabus_text, model)]; [model]
    is the outcome of [model.generate_content] on a prompt. The body of the
    [try] is [body]; the first handler formats [response.text] into its
    message before it returns, and what that raises leaves the function. *)
Definition extract_deadlines_from_syllabus_tool
    (syllabus_text : str) (model : str -> result response) : M value :=
  do _ <- print MsgUsingGemini ;
  let prompt := prompt_head ++ syllabus_text ++ prompt_tail in
  let call := model prompt in
  let body :=
    bind call (fun response =>
    bind (get_text response) (fun text =>
    let json_text := clean_response text in
    json_loads json_text)) in
  match body with
  | Ret extracted_data =>
    do _ <- print MsgExtracted ;
    ret extracted_data
  | Raise e =>
    if is_JSONDecodeError e || is_AttributeError e then
      do raw <- lift (bind (read_response call) get_text) ;
      do _ <- print (MsgParseError e raw) ;
      ret (VList [])
    else
      do _ <- print (MsgUnexpected e) ;
      ret (VList [])
  end.

(** ** The calendar builder *)

Section Builder.
Context `{UnicodeDb} `{Formatting} `{Serializer}.

(** The body of the [try] in the loop, for one item, up to the event that
    is added: the date is parsed before [Event()] is called, the two keys
    of the title are read after it, and [make_all_day] comes last. *)
Definition make_event (course_name : str) (item : value) : M Event :=
  do due <- lift (subscript item (lit "due_date")) ;
  do event_date <- lift (match due with
                         | VStr s => strptime s
                         | _ => Raise TypeError
                         end) ;
  do event <- Event_new ;
  do name <- lift (subscript item (lit "assignment_name")) ;
  do type <- lift (subscript item (lit "assignment_type")) ;
  let event :=
    set_name (lit "[" ++ course_name ++ lit "] - " ++ format name
              ++ lit " (" ++ format type ++ lit ")") event in
  let event := set_begin event_date event in
  do event <- lift (make_all_day event) ;
  ret event.

(** [except (ValueError, KeyError)] *)
Definition skipped (e : exn) : bool := is_ValueError e || is_KeyError e.

(** The loop [for item in deadlines] *)
Fixpoint add_events (course_name : str) (items : list value) (cal : Calendar)
  : M Calendar :=
  match items with
  | [] => ret cal
  | item :: rest =>
    fun w =>
      match make_event course_name item w with
      | (Ret event, w') => add_events course_name rest (events_add event cal) w'
      | (Raise e, w') =>
        if skipped e
        then (do _ <- print (MsgSkipping item e) ; add_events course_name rest cal) w'
        else (Raise e, w')
      end
  end.

(** ["".join(c for c in course_name if c.isalnum())] *)
Definition safe_course_name (course_name : str) : str :=
  join [] (List.map (fun c => [c]) (List.filter isalnum course_name)).

Definition schedule_path (course_name output_dir : str) : str :=
  path_join output_dir (safe_course_name course_name ++ lit "_schedule.ics").

(** [generate_ical_file_tool(course_name, deadlines, output_dir)] *)
Definition generate_ical_file_tool
    (course_name : str) (deadlines : value) (output_dir : str) : M str :=
  do _ <- print MsgGenerating ;
  if negb (truthy deadlines) then ret []
  else
    do _ <- on_disk (makedirs output_dir) ;
    let cal := new_calendar in
    do items <- lift (iterate deadlines) ;
    do cal <- add_events course_name items cal ;
    let filepath := schedule_path course_name output_dir in
    do _ <- on_disk (write_lines filepath (calendar_lines cal)) ;
    do _ <- print (MsgSaved filepath) ;
    ret filepath.

(** ** The orchestrator *)

Definition failure_message : str :=
  lit "Could not extract any deadlines. The AI might have failed to understand the syllabus format. Please check the console for more details.".

Definition success_message : str :=
  lit "Successfully extracted deadlines! Please review the table below and download your calendar file.".

(** [pd.DataFrame] and the model object [gemini_model] of the module. *)
Context {table : Type} (DataFrame : value -> result table).
Context (gemini_model : str -> result response).

(** [process_syllabus(course_name, syllabus_text)] *)
Definition process_syllabus (course_name syllabus_text : str)
  : M (str * option table * option (list N)) :=
  do extracted_data <- extract_deadlines_from_syllabus_tool syllabus_text gemini_model ;
  if negb (truthy extracted_data) then ret (failure_message, None, None)
  else
    do df <- lift (DataFrame extracted_data) ;
    do calendar_filepath <- generate_ical_file_tool course_name extracted_data (lit "calendars") ;
    ret (success_message, Some df, Some calendar_filepath).

End Builder.

End Main.
Import Main.

(* ===================================================================== *)
(** * Sample runtimes and inputs *)
(* ===================================================================== *)

(** Instances of the runtime classes on which the definitions evaluate:
    objects that are not strings format as [<object>], and the serializer
    writes one block of lines per event, in the shape of the iCalendar
    format. *)
Definition sample_formatting : Formatting :=
  {| str_of_object := fun _ => lit "<object>" |}.

Definition digit_char (n : N) : N := 48 + n mod 10.

Definition ymd_text (d : date) : str :=
  [digit_char (year d / 1000); digit_char (year d / 100); digit_char (year d / 10);
   digit_char (year d); digit_char (month d / 10); digit_char (month d);
   digit_char (day d / 10); digit_char (day d)].

Definition sample_event_lines (e : Event) : list str :=
  [lit "BEGIN:VEVENT" ++ [10];
   lit "DTSTART;VALUE=DATE:" ++ from_option ymd_text [] (ev_begin e) ++ [10];
   lit "SUMMARY:" ++ default [] (ev_name e) ++ [10];
   lit "UID:" ++ ev_uid e ++ [10];
   lit "END:VEVENT" ++ [10]].

Definition sample_serializer : Serializer :=
  {| calendar_lines := fun cal =>
       [lit "BEGIN:VCALENDAR" ++ [10]]
       ++ flat_map sample_event_lines cal
       ++ [lit "END:VCALENDAR"] |}.

Definition empty_disk : filesystem := {| dirs := ∅; files := ∅ |}.

(** A source of identifiers that never repeats: the text [uid-] followed
    by as many [i] as identifiers were drawn before. *)
Definition sample_uuids (k : nat) : str := lit "uid-" ++ List.repeat 105 k.

Definition fresh_world : world :=
  {| disk := empty_disk; console := []; uuids := sample_uuids; drawn := 0 |}.

(** [{"assignment_name": n, "due_date": d, "assignment_type": t}] *)
Definition record (n d t : str) : value :=
  VDict [(lit "assignment_name", VStr n); (lit "due_date", VStr d);
         (lit "assignment_type", VStr t)].

(** A model that answers every prompt with the same text. *)
Definition answers (text : str) : str -> result response :=
  fun _ => Ret (Response (Some text)).


(* ===================================================================== *)
(** * Notions used in the statements *)
(* ===================================================================== *)

Section Notions.
Context `{UnicodeDb} `{Formatting} `{Serializer}.

(** Line 83 for an item: the date its [due_date] parses to. *)
Definition due_date_of (item : value) : result date :=
  bind (subscript item (lit "due_date")) (fun due =>
  match due with
  | VStr s => strptime s
  | _ => Raise TypeError
  end).

(** Line 85 for an item: the title of its event. *)
Definition title_of (course_name : str) (item : value) : result str :=
  bind (subscript item (lit "assignment_name")) (fun name =>
  bind (subscript item (lit "assignment_type")) (fun type =>
  Ret (lit "[" ++ course_name ++ lit "] - " ++ format name
       ++ lit " (" ++ format type ++ lit ")"))).

(** What the body of the loop comes to for an item when [Event()] draws
    the identifier [uid] ([make_event_run] below). *)
Definition event_with (uid course_name : str) (item : value) : result Event :=
  bind (due_date_of item) (fun event_date =>
  bind (title_of course_name item) (fun title =>
  make_all_day (set_begin event_date (set_name title (new_event uid))))).

(** Whether the body of the loop reaches [Event()] for an item, and so
    takes an identifier from the source. *)
Definition draws (item : value) : bool :=
  match due_date_of item with
  | Ret _ => true
  | Raise _ => false
  end.





(** The all-day event the specification describes for a record: its title
    and its date; [uid] is the identifier it was given. *)
Definition titled_event (uid course_name n t : str) (d : date) : Event :=
  {| ev_uid := uid;
     ev_name := Some (lit "[" ++ course_name ++ lit "] - " ++ n ++ lit " (" ++ t ++ lit ")");
     ev_begin := Some d;
     ev_all_day := true |}.

(** A disk on which the builder can write below [output_dir]: no file
    stands where [output_dir] or one of its ancestors has to be a
    directory, and no directory stands where the calendar file goes. *)
Definition can_write (output_dir path : str) (fs : filesystem) : Prop :=
  output_dir <> []
  /\ Forall (fun p => is_file p fs = false) (lineage [] output_dir)
  /\ is_dir path fs = false.

(** From the specification: the course name with every non-alphanumeric
    character removed and nothing else altered. *)
Fixpoint without_non_alnum (s : str) : str :=
  match s with
  | [] => []
  | c :: r => if isalnum c then c :: without_non_alnum r else without_non_alnum r
  end.

End Notions.




(** A text that the encoding of the file can hold: every character is a
    code point of Unicode and none is a surrogate, which UTF-8 refuses. *)
Definition encodable (s : list N) : Prop :=
  Forall (fun c => (c <=? 1114111) && negb (in_range 55296 57343 c) = true) s.


(** From the specification: a response wrapped in Markdown code fences,
    starting with the opening fence and ending with the closing one. *)
Definition fenced (t : str) : str := fence_json ++ t ++ fence.

(** The two [replace] steps of the cleaning, without the [strip]. *)
Definition unfence (t : str) : str := replace fence [] (replace fence_json [] t).

(** The file system once the directories [ps] exist. *)
Definition with_dirs (ps : list str) (fs : filesystem) : filesystem :=
  {| dirs := list_to_set ps ∪ dirs fs; files := files fs |}.

(** A scan result with [w] appended to the text that remains. *)
Definition extend {A} (w : str) (r : parse A) : parse A :=
  match r with
  | Got a rest => Got a (rest ++ w)
  | Bad => Bad
  | Deep => Deep
  end.

Definition extend_opt {A} (w : str) (o : option (A * str)) : option (A * str) :=
  match o with
  | Some (a, rest) => Some (a, rest ++ w)
  | None => None
  end.

(** A text of JSON whitespace. *)
Abbreviation padding w := (Forall (fun c => is_ws c = true) w).

(** The five scanning functions commute with padding: [w] appended to the
    text is [w] appended to what remains. *)
Definition padded_alike (w : str) (f : nat) : Prop :=
  (forall s, scan_once f (s ++ w) = extend w (scan_once f s))
  /\ (forall s, JSONArray f (s ++ w) = extend w (JSONArray f s))
  /\ (forall acc s, array_items f acc (s ++ w) = extend w (array_items f acc s))
  /\ (forall s, JSONObject f (s ++ w) = extend w (JSONObject f s))
  /\ (forall pairs s, object_items f pairs (s ++ w) = extend w (object_items f pairs s)).

(** Each of the five scanning functions leaves less than it was given. *)
Definition consuming (f : nat) : Prop :=
  (forall s v r, scan_once f s = Got v r -> (length r < length s)%nat)
  /\ (forall s v r, JSONArray f s = Got v r -> (length r < length s)%nat)
  /\ (forall acc s v r, array_items f acc s = Got v r -> (length r < length s)%nat)
  /\ (forall s v r, JSONObject f s = Got v r -> (length r < length s)%nat)
  /\ (forall pairs s v r, object_items f pairs s = Got v r -> (length r < length s)%nat).

(** A budget above three times the length of the text is never used up. *)
Definition within_budget (f : nat) : Prop :=
  (forall s, (3 * length s < f)%nat -> scan_once f s <> Deep)
  /\ (forall s, (3 * length s + 2 < f)%nat -> JSONArray f s <> Deep)
  /\ (forall acc s, (3 * length s + 1 < f)%nat -> array_items f acc s <> Deep)
  /\ (forall s, (3 * length s + 2 < f)%nat -> JSONObject f s <> Deep)
  /\ (forall pairs s, (3 * length s + 1 < f)%nat -> object_items f pairs s <> Deep).

(** A scan that did not use up its budget is the same with a larger one. *)
Definition budget_stable (f : nat) : Prop :=
  (forall s, scan_once f s <> Deep -> scan_once (S f) s = scan_once f s)
  /\ (forall s, JSONArray f s <> Deep -> JSONArray (S f) s = JSONArray f s)
  /\ (forall acc s, array_items f acc s <> Deep ->
        array_items (S f) acc s = array_items f acc s)
  /\ (forall s, JSONObject f s <> Deep -> JSONObject (S f) s = JSONObject f s)
  /\ (forall pairs s, object_items f pairs s <> Deep ->
        object_items (S f) pairs s = object_items f pairs s).

(** The backquote, of which the fences are made. *)
Abbreviation tick := 96.

(** A character that stands for itself in a JSON string: no control
    character, no double quote, no backslash. *)
Definition literal_char (c : N) : bool :=
  (32 <=? c) && negb (c =? 34) && negb (c =? 92).

Abbreviation literal s := (Forall (fun c => literal_char c = true) s).

(** A text without backquote. *)
Abbreviation tickless s := (Forall (fun c => c <> tick) s).

(** The JSON text of a list of one record, written as the example in the
    prompt writes its records. *)
Definition record_text (n d t : str) : str :=
  dq "[{'assignment_name': '" ++ n ++ dq "', 'due_date': '" ++ d
  ++ dq "', 'assignment_type': '" ++ t ++ dq "'}]".







(** A text that can stand as it is between the quotes of a JSON string and
    holds no backquote. *)
Definition plain (s : str) : Prop := literal s /\ tickless s.

(** The number of records the loop reported as skipped. *)
Definition skip_count (log : list message) : nat :=
  length (List.filter (fun m => match m with MsgSkipping _ _ => true | _ => false end) log).

(** A date of the calendar, as [datetime.date] holds them. *)
Definition valid_date (d : date) : Prop :=
  in_range 1 9999 (year d) && in_range 1 12 (month d)
  && in_range 1 (days_in_month (year d) (month d)) (day d) = true.

(** [d.isoformat()]: the year on four digits, the month and the day on two,
    with dashes between them. *)
Definition isoformat (d : date) : str :=
  [digit_char (year d / 1000); digit_char (year d / 100); digit_char (year d / 10);
   digit_char (year d); 45; digit_char (month d / 10); digit_char (month d); 45;
   digit_char (day d / 10); digit_char (day d)].

(** An event as the loop makes them for a course: all-day, with a date of
    the calendar, and a title that starts with the course name between
    brackets. *)
Definition course_event (course_name : str) (e : Event) : Prop :=
  ev_all_day e = true
  /\ (exists d, ev_begin e = Some d /\ valid_date d)
  /\ (exists rest, ev_name e = Some (lit "[" ++ course_name ++ lit "] - " ++ rest)).

(** A disk on which [os.makedirs(output_dir, exist_ok=True)] succeeds. *)
Definition can_make (output_dir : str) (fs : filesystem) : Prop :=
  output_dir <> []
  /\ Forall (fun p => is_file p fs = false) (lineage [] output_dir).


(* ===================================================================== *)
(** * The runtime on examples *)
(* ===================================================================== *)

Example strip_ex : strip (lit "  [1] ") = lit "[1]".
Proof. reflexivity. Qed.

Example replace_ex : replace (lit "ab") (lit "-") (lit "aabbab") = lit "a-b-".
Proof. reflexivity. Qed.

Example replace_empty_ex : replace [] (lit "-") (lit "abc") = lit "-a-b-c-".
Proof. reflexivity. Qed.

Example float_zero_ex :
  List.map float_is_zero [lit "0.0"; lit "-0.0e5"; lit "1e-400"; lit "0.5"; lit "NaN"; lit "12.5e3"]
  = [true; true; true; false; false; false].
Proof. vm_compute. reflexivity. Qed.

Example loads_ex1 :
  json_loads (dq " [{'a': 1, 'b': [true, null, -2.5e3], 'a': 'xA\n'}] ")
  = Ret (VList [VDict [(lit "a", VStr [120; 65; 10]);
                       (lit "b", VList [VBool true; VNone; VFloat (lit "-2.5e3")])]]).
Proof. vm_compute. reflexivity. Qed.

Example loads_ex2 :
  List.map json_loads [lit "[1,]"; lit "01"; lit "[1] x"; lit ""; lit "-"; dq "'a"; lit "nul"; [12; 91; 93]]
  = List.map (fun _ => Raise JSONDecodeError) (seq 0 8).
Proof. vm_compute. reflexivity. Qed.

Example loads_ex3 :
  List.map json_loads [lit "-0"; lit "1e5"; lit "1.e5"; lit "-Infinity"; dq "'\ud83d\ude00'"; lit "{}"]
  = [Ret (VInt 0); Ret (VFloat (lit "1e5")); Raise JSONDecodeError;
     Ret (VFloat (lit "-Infinity")); Ret (VStr [128512]); Ret (VDict [])].
Proof. vm_compute. reflexivity. Qed.

Example strptime_ex (U : UnicodeDb) :
  List.map strptime
    [lit "2025-10-01"; lit "2025-1-5"; lit "2024-02-29"; lit "2025-10- 7"; lit "2025-12-31"]
  = [Ret (mkdate 2025 10 1); Ret (mkdate 2025 1 5); Ret (mkdate 2024 2 29);
     Ret (mkdate 2025 10 7); Ret (mkdate 2025 12 31)].
Proof. reflexivity. Qed.

Example strptime_bad_ex (U : UnicodeDb) :
  List.map strptime
    [lit "2025-13-40"; lit "2025-02-29"; lit "2025-10-011"; lit "25-10-01"; lit "2025/10/01";
     lit "0000-01-01"; lit "2025-10-32"; lit " 2025-10-01"; lit "2025-10-01 "; lit ""; lit "2025-00-10"]
  = List.map (fun _ => Raise ValueError) (seq 0 11).
Proof. reflexivity. Qed.

Example path_join_ex :
  [path_join (lit "calendars") (lit "a.ics"); path_join (lit "out/") (lit "a.ics");
   path_join [] (lit "a.ics"); path_join (lit "out") (lit "/a.ics")]
  = [lit "calendars/a.ics"; lit "out/a.ics"; lit "a.ics"; lit "/a.ics"].
Proof. reflexivity. Qed.

Example lineage_ex :
  [lineage [] (lit "a/b/c"); lineage [] (lit "/tmp//out/"); lineage [] (lit "calendars")]
  = [[lit "a"; lit "a/b"; lit "a/b/c"]; [lit "/tmp"; lit "/tmp//out"]; [lit "calendars"]].
Proof. reflexivity. Qed.

Example scanstring_ex :
  List.map (fun t => json_loads (dq t))
    ["'aA\n\/'"; "'\ud83d\ude00'"; "'\ud83d'"; "'\ud83dx'"; "'\ud83d\n'";
     "'\ud800\ud83d\ude00'"; "'\ud83dA'"; "'\ude00\ud83d'";
     "'\u12'"; "'\u12G4'"; "'\q'"; "'\ud83d\u12'"; "'abc"; "'\"]%string
  = [Ret (VStr [97; 65; 10; 47]); Ret (VStr [128512]); Ret (VStr [55357]);
     Ret (VStr [55357; 120]); Ret (VStr [55357; 10]);
     Ret (VStr [55296; 128512]); Ret (VStr [55357; 65]); Ret (VStr [56832; 55357]);
     Raise JSONDecodeError; Raise JSONDecodeError; Raise JSONDecodeError;
     Raise JSONDecodeError; Raise JSONDecodeError; Raise JSONDecodeError].
Proof. vm_compute. reflexivity. Qed.

(** The loop on three records: the second has no date that parses and
    takes no identifier, the third is skipped after [Event()] was called
    and takes one. *)
Example add_events_ex :
  let _ := ascii_only in let _ := sample_formatting in
  let run := add_events (lit "CS")
               [record (lit "Essay") (lit "2025-09-15") (lit "Essay");
                record (lit "Quiz") (lit "soon") (lit "Quiz");
                VDict [(lit "due_date", VStr (lit "2025-10-01"))];
                record (lit "Exam") (lit "2025-12-01") (lit "Exam")] new_calendar fresh_world in
  List.map ev_uid (match fst run with Ret cal => cal | Raise _ => [] end)
  = [lit "uid-"; lit "uid-ii"]
  /\ drawn (snd run) = 3%nat
  /\ length (console (snd run)) = 2%nat.
Proof. cbv zeta. repeat split; vm_compute; reflexivity. Qed.

(** The last day of the year 9999 parses, and [make_all_day] overflows on
    it: the loop raises, the records before it are lost. *)
Example last_day_ex :
  let _ := ascii_only in let _ := sample_formatting in
  fst (add_events (lit "CS")
         [record (lit "Essay") (lit "2025-09-15") (lit "Essay");
          record (lit "Party") (lit "9999-12-31") (lit "Other")] new_calendar fresh_world)
  = Raise OverflowError.
Proof. cbv zeta. vm_compute. reflexivity. Qed.
(* ===================================================================== *)
(** * The loop of the calendar builder *)
(* ===================================================================== *)

Section BuilderFacts.
Context `{UnicodeDb} `{Formatting} `{Serializer}.

(** The body of the loop for one item: what it returns or raises, and the
    identifier it takes when it gets as far as [Event()]. *)
Lemma make_event_run course item w :
  make_event course item w
  = (event_with (uuids w (drawn w)) course item,
     if draws item
     then {| disk := disk w; console := console w;
             uuids := uuids w; drawn := S (drawn w) |}
     else w).
Proof.
  unfold make_event, event_with, draws, due_date_of, title_of, mbind, lift, ret, Event_new.
  destruct (subscript item (lit "due_date")) as [due|e]; cbn [bind]; [|reflexivity].
  destruct (match due with VStr s => strptime s | _ => Raise TypeError end) as [dt|e];
    cbn [bind]; [|reflexivity].
  destruct (subscript item (lit "assignment_name")) as [n|e]; cbn [bind]; [|reflexivity].
  destruct (subscript item (lit "assignment_type")) as [t|e]; cbn [bind]; [|reflexivity].
  destruct (make_all_day _); reflexivity.
Qed.




(** The loop prints and draws identifiers, and does nothing else to the
    world. *)
Lemma add_events_disk course items : forall cal w,
  disk (snd (add_events course items cal w)) = disk w.
Proof.
  induction items as [|item rest IH]; intros cal w; cbn [add_events]; [reflexivity|].
  rewrite make_event_run.
  assert (Hd : disk (if draws item
                     then {| disk := disk w; console := console w;
                             uuids := uuids w; drawn := S (drawn w) |}
                     else w) = disk w) by (by destruct (draws item)).
  destruct (event_with _ course item) as [e|e].
  - by rewrite IH.
  - destruct (skipped e); [|exact Hd].
    unfold mbind, print. by rewrite IH.
Qed.

Lemma add_events_uuids course items : forall cal w,
  uuids (snd (add_events course items cal w)) = uuids w.
Proof.
  induction items as [|item rest IH]; intros cal w; cbn [add_events]; [reflexivity|].
  rewrite make_event_run.
  assert (Hd : uuids (if draws item
                      then {| disk := disk w; console := console w;
                              uuids := uuids w; drawn := S (drawn w) |}
                      else w) = uuids w) by (by destruct (draws item)).
  destruct (event_with _ course item) as [e|e].
  - by rewrite IH.
  - destruct (skipped e); [|exact Hd].
    unfold mbind, print. by rewrite IH.
Qed.

(** Identifiers are only taken, never given back. *)
Lemma add_events_drawn course items : forall cal w,
  (drawn w <= drawn (snd (add_events course items cal w)))%nat.
Proof.
  induction items as [|item rest IH]; intros cal w; cbn [add_events]; [done|].
  rewrite make_event_run.
  assert (Hd : (drawn w <= drawn (if draws item
                      then {| disk := disk w; console := console w;
                              uuids := uuids w; drawn := S (drawn w) |}
                      else w))%nat) by (destruct (draws item); cbn; lia).
  destruct (event_with _ course item) as [e|e].
  - etransitivity; [exact Hd | apply IH].
  - destruct (skipped e); [|exact Hd].
    unfold mbind, print. etransitivity; [exact Hd|].
    etransitivity; [|apply IH]. done.
Qed.

(** What the loop returns and how many identifiers it takes depend on the
    source of identifiers alone. *)
Lemma add_events_result course items : forall cal w w',
  uuids w = uuids w' -> drawn w = drawn w' ->
  fst (add_events course items cal w) = fst (add_events course items cal w')
  /\ drawn (snd (add_events course items cal w))
     = drawn (snd (add_events course items cal w')).
Proof.
  induction items as [|item rest IH]; intros cal w w' Hu Hk; cbn [add_events].
  - by split.
  - rewrite !make_event_run, Hu, Hk.
    destruct (event_with _ course item) as [e|e].
    + apply IH; destruct (draws item); done.
    + destruct (skipped e).
      * unfold mbind, print. apply IH; destruct (draws item); done.
      * split; [reflexivity|]. destruct (draws item); done.
Qed.








(** A record with its three fields and a date that parses, other than the
    last day of the year 9999, makes the event of the specification. *)
Lemma record_event uid course n d t dt :
  strptime d = Ret dt -> is_last_day dt = false ->
  event_with uid course (record n d t) = Ret (titled_event uid course n t dt)
  /\ draws (record n d t) = true.
Proof.
  intros Hd Hlast. split.
  - unfold event_with, due_date_of, title_of, record, subscript. simpl.
    rewrite Hd. simpl. unfold make_all_day. simpl. by rewrite Hlast.
  - unfold draws, due_date_of, record, subscript. simpl. by rewrite Hd.
Qed.

End BuilderFacts.




(* ===================================================================== *)
(** * Facts on strings *)
(* ===================================================================== *)

(** ** [startswith] and [replace] *)

Lemma startswith_app p rest : startswith p (p ++ rest) = true.
Proof.
  induction p as [|a p IH]; [reflexivity|]. simpl. by rewrite N.eqb_refl.
Qed.

Lemma startswith_inv p : forall s,
  startswith p s = true -> exists rest, s = p ++ rest.
Proof.
  induction p as [|a p IH]; intros s Hs.
  - by exists s.
  - destruct s as [|b s]; [discriminate|]. simpl in Hs.
    apply andb_true_iff in Hs as [Hab Hs]. apply N.eqb_eq in Hab. subst b.
    destruct (IH _ Hs) as [rest ->]. by exists rest.
Qed.

(** A scan that is passing over a match resumes after it. *)
Lemma replace_scan_skip old new s : forall k,
  replace_scan old new k s = replace_scan old new 0 (drop k s).
Proof.
  induction s as [|c s IH]; intros k.
  - by destruct k.
  - destruct k as [|k]; [reflexivity|]. simpl. apply IH.
Qed.

Lemma replace_scan_match old new rest :
  old <> [] ->
  replace_scan old new 0 (old ++ rest) = new ++ replace_scan old new 0 rest.
Proof.
  intros Hne. destruct old as [|a old]; [done|].
  change ((a :: old) ++ rest) with (a :: (old ++ rest)).
  cbn [replace_scan]. 
  change (a :: (old ++ rest)) with ((a :: old) ++ rest).
  rewrite startswith_app. f_equal.
  rewrite replace_scan_skip. simpl. by rewrite drop_app_length.
Qed.

Lemma replace_scan_pass old new c s :
  startswith old (c :: s) = false ->
  replace_scan old new 0 (c :: s) = c :: replace_scan old new 0 s.
Proof. intros Hs. cbn [replace_scan]. by rewrite Hs. Qed.

Lemma replace_scan_nil old new : replace_scan old new 0 [] = [].
Proof. reflexivity. Qed.

(** No match starts inside a prefix free of the first character of [old]. *)
Lemma replace_scan_before old new a old' pre s :
  old = a :: old' ->
  Forall (fun c => c <> a) pre ->
  replace_scan old new 0 (pre ++ s) = pre ++ replace_scan old new 0 s.
Proof.
  intros -> Hpre. induction Hpre as [|c pre Hc _ IH]; [reflexivity|].
  simpl app. rewrite replace_scan_pass.
  - by rewrite IH.
  - simpl. apply N.eqb_neq in Hc. rewrite N.eqb_sym in Hc. by rewrite Hc.
Qed.

(** No match reaches into a suffix free of the last character of [old]. *)
Lemma startswith_short p : forall s w z,
  last p = Some z -> Forall (fun c => c <> z) w ->
  startswith p (s ++ w) = startswith p s.
Proof.
  induction p as [|a p IH]; intros s w z Hz Hw; [reflexivity|].
  destruct s as [|b s].
  - simpl. destruct w as [|c w]; [reflexivity|].
    inversion Hw as [|? ? Hc Hw']; subst.
    destruct p as [|a' p'].
    + simpl in Hz. injection Hz as ->. simpl.
      apply N.eqb_neq in Hc. rewrite N.eqb_sym in Hc. by rewrite Hc.
    + destruct (a =? c); [|reflexivity]. simpl.
      rewrite last_cons_cons in Hz.
      exact (IH [] w z Hz Hw').
  - simpl. destruct (a =? b); [|reflexivity]. simpl.
    destruct p as [|a' p']; [reflexivity|].
    apply (IH s w z); [|exact Hw]. by rewrite last_cons_cons in Hz.
Qed.

Lemma replace_scan_after old new z w :
  last old = Some z -> Forall (fun c => c <> z) w ->
  forall s, replace_scan old new 0 (s ++ w) = replace_scan old new 0 s ++ w.
Proof.
  intros Hz Hw.
  assert (Hnone : forall v, Forall (fun c => c <> z) v -> replace_scan old new 0 v = v).
  { induction v as [|c v IH]; intros Hv; [reflexivity|].
    inversion Hv as [|? ? Hc Hv']; subst.
    rewrite replace_scan_pass; [by rewrite IH|].
    rewrite <- (app_nil_l (c :: v)). rewrite (startswith_short old [] (c :: v) z Hz Hv).
    destruct old; [discriminate|reflexivity]. }
  intros s. remember (length s) as n eqn:Hn.
  revert s Hn. induction n as [n IH] using lt_wf_ind. intros s Hn.
  destruct s as [|c s]; [by apply Hnone|].
  destruct (startswith old (c :: s)) eqn:Hs.
  - apply startswith_inv in Hs as [rest Hrest]. rewrite Hrest.
    assert (Hne : old <> []) by (destruct old; [discriminate|done]).
    rewrite <- app_assoc. rewrite !replace_scan_match by exact Hne.
    rewrite <- app_assoc. f_equal.
    apply (IH (length rest)); [|reflexivity].
    subst n. rewrite Hrest, length_app. destruct old; [done|]. simpl. lia.
  - change ((c :: s) ++ w) with (c :: (s ++ w)).
    rewrite !replace_scan_pass.
    + simpl. f_equal. apply (IH (length s)); [|reflexivity]. subst n. simpl. lia.
    + exact Hs.
    + change (c :: (s ++ w)) with ((c :: s) ++ w).
      by rewrite (startswith_short old (c :: s) w z Hz Hw).
Qed.

(** ** The fences *)

Lemma length_ind (P : str -> Prop) :
  (forall s, (forall t, (length t < length s)%nat -> P t) -> P s) -> forall s, P s.
Proof.
  intros Hstep s. remember (length s) as n eqn:Hn. revert s Hn.
  induction n as [n IH] using lt_wf_ind. intros s ->.
  apply Hstep. intros t Ht. by apply (IH (length t)).
Qed.

Lemma unfence_scan s : replace fence [] s = replace_scan fence [] 0 s.
Proof. reflexivity. Qed.

Lemma unfence_json_scan s : replace fence_json [] s = replace_scan fence_json [] 0 s.
Proof. reflexivity. Qed.

Lemma fence_ticks : fence = [tick; tick; tick].
Proof. reflexivity. Qed.

Lemma startswith_fence_other c s : c <> tick -> startswith fence (c :: s) = false.
Proof.
  intros Hc. rewrite fence_ticks. cbn [startswith].
  apply N.eqb_neq in Hc. rewrite N.eqb_sym in Hc. by rewrite Hc.
Qed.

Lemma unfence_other c s :
  c <> tick -> replace fence [] (c :: s) = c :: replace fence [] s.
Proof.
  intros Hc. rewrite !unfence_scan. apply replace_scan_pass.
  by apply startswith_fence_other.
Qed.

Lemma unfence_tick_other c s :
  c <> tick -> replace fence [] (tick :: c :: s) = tick :: replace fence [] (c :: s).
Proof.
  intros Hc. rewrite !unfence_scan. apply replace_scan_pass.
  rewrite fence_ticks. cbn [startswith].
  apply N.eqb_neq in Hc. rewrite N.eqb_sym in Hc. rewrite Hc.
  by rewrite ?andb_false_r.
Qed.

Lemma unfence_tick_tick_other c s :
  c <> tick ->
  replace fence [] (tick :: tick :: c :: s) = tick :: replace fence [] (tick :: c :: s).
Proof.
  intros Hc. rewrite !unfence_scan. apply replace_scan_pass.
  rewrite fence_ticks. cbn [startswith].
  apply N.eqb_neq in Hc. rewrite N.eqb_sym in Hc. rewrite Hc.
  by rewrite ?andb_false_r.
Qed.

Lemma unfence_fence s : replace fence [] (fence ++ s) = replace fence [] s.
Proof. rewrite !unfence_scan. by rewrite replace_scan_match. Qed.

(** Replacing the fence in a text that ends in a fence. *)
Lemma replace_fence_closing : forall s,
  replace fence [] (s ++ fence) = replace fence [] s.
Proof.
  induction s as [s IH] using length_ind.
  destruct s as [|c1 s]; [reflexivity|].
  destruct (N.eq_dec c1 tick) as [->|H1].
  2:{ simpl app. rewrite !unfence_other by exact H1. f_equal. apply IH. simpl. lia. }
  destruct s as [|c2 s]; [reflexivity|].
  destruct (N.eq_dec c2 tick) as [->|H2].
  2:{ simpl app. rewrite !unfence_tick_other by exact H2. f_equal.
      apply (IH (c2 :: s)). simpl. lia. }
  destruct s as [|c3 s]; [reflexivity|].
  destruct (N.eq_dec c3 tick) as [->|H3].
  2:{ simpl app. rewrite !unfence_tick_tick_other by exact H3. f_equal.
      apply (IH (tick :: c3 :: s)). simpl. lia. }
  change (tick :: tick :: tick :: s) with (fence ++ s).
  rewrite <- app_assoc, !unfence_fence. apply IH. simpl. lia.
Qed.







(* ===================================================================== *)
(** * Facts on the JSON decoder *)
(* ===================================================================== *)

(** ** Whitespace after a JSON text *)

Lemma is_ws_cases c : is_ws c = true -> c = 32 \/ c = 9 \/ c = 10 \/ c = 13.
Proof.
  unfold is_ws. rewrite !orb_true_iff, !N.eqb_eq. tauto.
Qed.

Ltac ws_cases H :=
  apply is_ws_cases in H; destruct H as [-> | [-> | [-> | ->]]].

Lemma skip_ws_padding w (Hw : padding w) : skip_ws w = [].
Proof.
  unfold skip_ws. induction Hw as [|c r Hc _ IH]; [reflexivity|].
  simpl. by rewrite Hc.
Qed.

Lemma skip_ws_app w (Hw : padding w) s :
  (skip_ws s = [] /\ skip_ws (s ++ w) = [])
  \/ (skip_ws s <> [] /\ skip_ws (s ++ w) = skip_ws s ++ w).
Proof.
  unfold skip_ws. induction s as [|c s IH].
  - left. split; [reflexivity|]. by apply skip_ws_padding.
  - simpl. destruct (is_ws c); [exact IH|]. right. split; [discriminate|reflexivity].
Qed.

Lemma scan_chars_padding w (Hw : padding w) : forall st, scan_chars st w = None.
Proof.
  induction Hw as [|c r Hc _ IH]; intros st; [reflexivity|].
  ws_cases Hc; destruct st as [| |more acc pending|hi|hi]; cbn;
    rewrite ?IH; try reflexivity; by destruct pending.
Qed.

Lemma scan_chars_app w (Hw : padding w) s : forall st,
  scan_chars st (s ++ w) = extend_opt w (scan_chars st s).
Proof.
  induction s as [|c s IH]; intros st.
  - by apply scan_chars_padding.
  - cbn [app scan_chars]. destruct (string_step st c) as [out|out next|]; try reflexivity.
    rewrite IH. by destruct (scan_chars next s) as [[x r]|].
Qed.

Lemma digits_app w (Hw : padding w) s :
  takewhile ascii_digit (s ++ w) = takewhile ascii_digit s
  /\ dropwhile ascii_digit (s ++ w) = dropwhile ascii_digit s ++ w.
Proof.
  induction s as [|c s [IH1 IH2]].
  - simpl. destruct Hw as [|c r Hc _]; [done|]. ws_cases Hc; done.
  - simpl. destruct (ascii_digit c); [|done]. by rewrite IH1, IH2.
Qed.

Lemma frac_span_app w (Hw : padding w) s :
  frac_span (s ++ w) = (fst (frac_span s), snd (frac_span s) ++ w).
Proof.
  destruct s as [|p r].
  - simpl. destruct Hw as [|c r Hc _]; [done|]. ws_cases Hc; done.
  - cbn [app frac_span]. destruct (p =? 46); [|reflexivity].
    destruct (digits_app w Hw r) as [-> ->].
    by destruct (takewhile ascii_digit r).
Qed.

Lemma exp_span_app w (Hw : padding w) s :
  exp_span (s ++ w) = (fst (exp_span s), snd (exp_span s) ++ w).
Proof.
  destruct s as [|e r].
  - simpl. destruct Hw as [|c r Hc _]; [done|]. ws_cases Hc; done.
  - cbn [app exp_span]. destruct ((e =? 101) || (e =? 69)); [|reflexivity].
    destruct r as [|g rr].
    + simpl. destruct Hw as [|c r Hc _]; [done|]. ws_cases Hc; done.
    + cbn [app]. destruct ((g =? 45) || (g =? 43)).
      * destruct (digits_app w Hw rr) as [-> ->]. by destruct (takewhile ascii_digit rr).
      * change (g :: rr ++ w) with ((g :: rr) ++ w).
        destruct (digits_app w Hw (g :: rr)) as [-> ->].
        by destruct (takewhile ascii_digit (g :: rr)).
Qed.

Lemma int_span_app w (Hw : padding w) s :
  int_span (s ++ w)
  = match int_span s with
    | Some (neg, ints, r) => Some (neg, ints, r ++ w)
    | None => None
    end.
Proof.
  assert (Hpad : int_span w = None).
  { destruct Hw as [|c r Hc _]; [done|]. ws_cases Hc; done. }
  assert (Hdigits : forall neg t,
    match t ++ w with
    | d :: r =>
      if d =? 48 then Some (neg, [d], r)
      else if in_range 49 57 d
           then Some (neg, d :: takewhile ascii_digit r, dropwhile ascii_digit r)
           else None
    | [] => None
    end
    = match match t with
            | d :: r =>
              if d =? 48 then Some (neg, [d], r)
              else if in_range 49 57 d
                   then Some (neg, d :: takewhile ascii_digit r, dropwhile ascii_digit r)
                   else None
            | [] => None
            end with
      | Some (neg, ints, r) => Some (neg : bool, ints, r ++ w)
      | None => None
      end).
  { intros neg [|d r].
    - simpl. destruct Hw as [|c r Hc _]; [done|]. ws_cases Hc; done.
    - cbn [app]. destruct (d =? 48); [reflexivity|].
      destruct (in_range 49 57 d); [|reflexivity].
      by destruct (digits_app w Hw r) as [-> ->]. }
  destruct s as [|c r]; [exact Hpad|].
  unfold int_span. cbn [app]. destruct (c =? 45).
  - apply Hdigits.
  - apply (Hdigits false (c :: r)).
Qed.

Lemma match_number_app w (Hw : padding w) s :
  match_number (s ++ w) = extend_opt w (match_number s).
Proof.
  unfold match_number. rewrite (int_span_app w Hw).
  destruct (int_span s) as [[[neg ints] r1]|]; [|reflexivity].
  rewrite (frac_span_app w Hw). destruct (frac_span r1) as [frac r2]. cbn [fst snd].
  rewrite (exp_span_app w Hw). destruct (exp_span r2) as [ex r3]. cbn [fst snd].
  by destruct (frac ++ ex).
Qed.

Lemma after_app w (Hw : padding w) p : forall s,
  Forall (fun c => is_ws c = false) p ->
  after p (s ++ w) = (fun r => r ++ w) <$> after p s.
Proof.
  induction p as [|a p IH]; intros s Hp; [reflexivity|].
  inversion Hp as [|? ? Ha Hp']; subst.
  destruct s as [|b s].
  - simpl. destruct Hw as [|c r Hc _]; [done|].
    destruct (a =? c) eqn:E; [|reflexivity].
    apply N.eqb_eq in E. congruence.
  - cbn [app after]. destruct (a =? b); [|reflexivity]. by apply IH.
Qed.

Lemma scan_scalar_app w (Hw : padding w) s :
  scan_scalar (s ++ w) = extend_opt w (scan_scalar s).
Proof.
  unfold scan_scalar.
  rewrite !(after_app w Hw) by (repeat constructor).
  rewrite (match_number_app w Hw).
  destruct (after (lit "null") s); [reflexivity|].
  destruct (after (lit "true") s); [reflexivity|].
  destruct (after (lit "false") s); [reflexivity|].
  destruct (match_number s) as [[v r]|]; [reflexivity|].
  destruct (after (lit "NaN") s); [reflexivity|].
  destruct (after (lit "Infinity") s); [reflexivity|].
  destruct (after (lit "-Infinity") s); reflexivity.
Qed.

(** ** The scanner, one step at a time *)

Lemma scan_once_step f s :
  scan_once (S f) s
  = match s with
    | [] => Bad
    | c :: s1 =>
      if c =? 34 then
        match scanstring s1 with
        | Some (x, r) => Got (VStr x) r
        | None => Bad
        end
      else if c =? 123 then JSONObject f s1
      else if c =? 91 then JSONArray f s1
      else of_option (scan_scalar s)
    end.
Proof. reflexivity. Qed.

Lemma JSONArray_step f s :
  JSONArray (S f) s
  = match skip_ws s with
    | [] => Bad
    | c :: r => if c =? 93 then Got (VList []) r else array_items f [] (c :: r)
    end.
Proof. reflexivity. Qed.

Lemma array_items_step f acc s :
  array_items (S f) acc s
  = match scan_once f s with
    | Got v r =>
      match skip_ws r with
      | [] => Bad
      | c :: r1 =>
        if c =? 93 then Got (VList (acc ++ [v])) r1
        else if c =? 44 then array_items f (acc ++ [v]) (skip_ws r1)
        else Bad
      end
    | Bad => Bad
    | Deep => Deep
    end.
Proof. reflexivity. Qed.

Lemma JSONObject_step f s :
  JSONObject (S f) s
  = match skip_ws s with
    | [] => Bad
    | c :: r =>
      if c =? 125 then Got (VDict []) r
      else if c =? 34 then object_items f [] r
      else Bad
    end.
Proof. reflexivity. Qed.

Lemma object_items_step f pairs s :
  object_items (S f) pairs s
  = match scanstring s with
    | None => Bad
    | Some (key, r) =>
      match skip_ws r with
      | [] => Bad
      | c :: r1 =>
        if c =? 58 then
          match scan_once f (skip_ws r1) with
          | Got v r2 =>
            match skip_ws r2 with
            | [] => Bad
            | d :: r3 =>
              if d =? 125 then Got (VDict (dict_of_pairs (pairs ++ [(key, v)]))) r3
              else if d =? 44 then
                match skip_ws r3 with
                | [] => Bad
                | q :: r4 =>
                  if q =? 34 then object_items f (pairs ++ [(key, v)]) r4 else Bad
                end
              else Bad
            end
          | Bad => Bad
          | Deep => Deep
          end
        else Bad
      end
    end.
Proof. reflexivity. Qed.

(** At the end of the text there is no value. *)
Lemma scan_once_nil f : scan_once f [] = Bad \/ scan_once f [] = Deep.
Proof. destruct f; auto. Qed.

Lemma scan_padded w (Hw : padding w) : forall f, padded_alike w f.
Proof.
  induction f as [|f (IHscan & IHarr & IHitems & IHobj & IHpairs)].
  { repeat split; reflexivity. }
  assert (Hskip : forall (k : str -> parse value) s,
            k [] = extend w (k []) ->
            (forall c r, k ((c :: r) ++ w) = extend w (k (c :: r))) ->
            k (skip_ws (s ++ w)) = extend w (k (skip_ws s))).
  { intros k s Hnil Hcons.
    destruct (skip_ws_app w Hw s) as [[-> ->] | [Hne ->]]; [exact Hnil|].
    destruct (skip_ws s); [done|]. apply Hcons. }
  assert (Hitems_nil : forall acc, array_items f acc [] = extend w (array_items f acc [])).
  { intros acc. destruct f as [|f']; [reflexivity|]. rewrite array_items_step.
    by destruct (scan_once_nil f') as [-> | ->]. }
  assert (Hscan_nil : scan_once f [] = extend w (scan_once f [])).
  { by destruct (scan_once_nil f) as [-> | ->]. }
  split; [|split; [|split; [|split]]].
  - (* scan_once *)
    intros s. rewrite !scan_once_step. destruct s as [|c s1].
    + pose proof (scan_scalar_app w Hw []) as Hsc. simpl app in *.
      destruct Hw as [|c r Hc Hr]; [reflexivity|].
      rewrite Hsc. ws_cases Hc; reflexivity.
    + cbn [app]. destruct (c =? 34).
      { unfold scanstring. rewrite (scan_chars_app w Hw).
        by destruct (scan_chars SText s1) as [[x r]|]. }
      destruct (c =? 123); [apply IHobj|].
      destruct (c =? 91); [apply IHarr|].
      change (c :: s1 ++ w) with ((c :: s1) ++ w).
      rewrite (scan_scalar_app w Hw).
      by destruct (scan_scalar (c :: s1)) as [[v r]|].
  - (* JSONArray *)
    intros s. rewrite !JSONArray_step.
    apply (Hskip (fun t => match t with
                           | [] => Bad
                           | c :: r => if c =? 93 then Got (VList []) r
                                       else array_items f [] (c :: r)
                           end)); [reflexivity|].
    intros c r. cbn [app]. destruct (c =? 93); [reflexivity|].
    apply (IHitems [] (c :: r)).
  - (* array_items *)
    intros acc s. rewrite !array_items_step. rewrite IHscan.
    destruct (scan_once f s) as [v r| |]; try reflexivity. cbn [extend].
    apply (Hskip (fun t => match t with
                           | [] => Bad
                           | c :: r1 =>
                             if c =? 93 then Got (VList (acc ++ [v])) r1
                             else if c =? 44 then array_items f (acc ++ [v]) (skip_ws r1)
                             else Bad
                           end)); [reflexivity|].
    intros c r1. cbn [app]. destruct (c =? 93); [reflexivity|].
    destruct (c =? 44); [|reflexivity].
    apply (Hskip (array_items f (acc ++ [v]))); [apply Hitems_nil|].
    intros c' r'. apply IHitems.
  - (* JSONObject *)
    intros s. rewrite !JSONObject_step.
    apply (Hskip (fun t => match t with
                           | [] => Bad
                           | c :: r =>
                             if c =? 125 then Got (VDict []) r
                             else if c =? 34 then object_items f [] r
                             else Bad
                           end)); [reflexivity|].
    intros c r. cbn [app]. destruct (c =? 125); [reflexivity|].
    destruct (c =? 34); [|reflexivity]. apply IHpairs.
  - (* object_items *)
    intros pairs s. rewrite !object_items_step.
    unfold scanstring. rewrite (scan_chars_app w Hw).
    destruct (scan_chars SText s) as [[key r]|]; [|reflexivity]. cbn [extend_opt].
    apply (Hskip (fun t =>
      match t with
      | [] => Bad
      | c :: r1 =>
        if c =? 58 then
          match scan_once f (skip_ws r1) with
          | Got v r2 =>
            match skip_ws r2 with
            | [] => Bad
            | d :: r3 =>
              if d =? 125 then Got (VDict (dict_of_pairs (pairs ++ [(key, v)]))) r3
              else if d =? 44 then
                match skip_ws r3 with
                | [] => Bad
                | q :: r4 =>
                  if q =? 34 then object_items f (pairs ++ [(key, v)]) r4 else Bad
                end
              else Bad
            end
          | Bad => Bad
          | Deep => Deep
          end
        else Bad
      end)); [reflexivity|].
    intros c r1. cbn [app]. destruct (c =? 58); [|reflexivity].
    rewrite (Hskip (scan_once f) r1 Hscan_nil (fun c' r' => IHscan (c' :: r'))).
    destruct (scan_once f (skip_ws r1)) as [v r2| |]; try reflexivity. cbn [extend].
    apply (Hskip (fun t =>
      match t with
      | [] => Bad
      | d :: r3 =>
        if d =? 125 then Got (VDict (dict_of_pairs (pairs ++ [(key, v)]))) r3
        else if d =? 44 then
          match skip_ws r3 with
          | [] => Bad
          | q :: r4 =>
            if q =? 34 then object_items f (pairs ++ [(key, v)]) r4 else Bad
          end
        else Bad
      end)); [reflexivity|].
    intros d r3. cbn [app]. destruct (d =? 125); [reflexivity|].
    destruct (d =? 44); [|reflexivity].
    apply (Hskip (fun t =>
      match t with
      | [] => Bad
      | q :: r4 =>
        if q =? 34 then object_items f (pairs ++ [(key, v)]) r4 else Bad
      end)); [reflexivity|].
    intros q r4. cbn [app]. destruct (q =? 34); [|reflexivity]. apply IHpairs.
Qed.

(** ** The scanner consumes what it reads *)

Lemma dropwhile_length f s : (length (dropwhile f s) <= length s)%nat.
Proof.
  induction s as [|c s IH]; simpl; [lia|]. destruct (f c); simpl; lia.
Qed.

Lemma skip_ws_length s : (length (skip_ws s) <= length s)%nat.
Proof. apply dropwhile_length. Qed.

Lemma skip_ws_cons s c r : skip_ws s = c :: r -> (length r < length s)%nat.
Proof.
  intros E. pose proof (skip_ws_length s) as Hlen. rewrite E in Hlen. simpl in Hlen. lia.
Qed.

Lemma scan_chars_shorter s : forall st x r,
  scan_chars st s = Some (x, r) -> (length r < length s)%nat.
Proof.
  induction s as [|c s IH]; intros st x r; [discriminate|].
  cbn [scan_chars]. destruct (string_step st c) as [out|out next|]; [| |discriminate].
  - intros [= _ <-]. simpl. lia.
  - destruct (scan_chars next s) as [[x' r']|] eqn:E; [|discriminate].
    intros [= _ <-]. apply IH in E. simpl. lia.
Qed.

Lemma after_shorter p : forall s r,
  p <> [] -> after p s = Some r -> (length r < length s)%nat.
Proof.
  induction p as [|a p IH]; intros s r Hne; [done|].
  destruct s as [|b s]; [discriminate|]. cbn [after].
  destruct (a =? b); [|discriminate].
  destruct p as [|a' p'].
  - intros [= <-]. simpl. lia.
  - intros E. apply IH in E; [|discriminate]. simpl. lia.
Qed.

Lemma frac_span_length s : (length (snd (frac_span s)) <= length s)%nat.
Proof.
  destruct s as [|p r]; [simpl; lia|]. cbn [frac_span].
  destruct (p =? 46); [|simpl; lia].
  pose proof (dropwhile_length ascii_digit r).
  destruct (takewhile ascii_digit r); simpl; lia.
Qed.

Lemma exp_span_length s : (length (snd (exp_span s)) <= length s)%nat.
Proof.
  destruct s as [|e r]; [simpl; lia|]. cbn [exp_span].
  destruct ((e =? 101) || (e =? 69)); [|simpl; lia].
  destruct r as [|g rr].
  - simpl. lia.
  - destruct ((g =? 45) || (g =? 43)).
    + pose proof (dropwhile_length ascii_digit rr).
      destruct (takewhile ascii_digit rr); simpl; lia.
    + pose proof (dropwhile_length ascii_digit (g :: rr)).
      destruct (takewhile ascii_digit (g :: rr)); simpl in *; lia.
Qed.

Lemma int_span_shorter s neg ints r :
  int_span s = Some (neg, ints, r) -> (length r < length s)%nat.
Proof.
  assert (Hdigits : forall (neg' : bool) t,
    match t with
    | d :: r' =>
      if d =? 48 then Some (neg', [d], r')
      else if in_range 49 57 d
           then Some (neg', d :: takewhile ascii_digit r', dropwhile ascii_digit r')
           else None
    | [] => None
    end = Some (neg, ints, r) -> (length r < length t)%nat).
  { intros neg' [|d r']; [discriminate|].
    destruct (d =? 48); [intros [= _ _ <-]; simpl; lia|].
    destruct (in_range 49 57 d); [|discriminate].
    intros [= _ _ <-]. pose proof (dropwhile_length ascii_digit r'). simpl. lia. }
  destruct s as [|c s']; [discriminate|].
  unfold int_span. destruct (c =? 45).
  - intros E. apply (Hdigits true s') in E. simpl. lia.
  - intros E. exact (Hdigits false (c :: s') E).
Qed.

Lemma match_number_shorter s v r :
  match_number s = Some (v, r) -> (length r < length s)%nat.
Proof.
  unfold match_number.
  destruct (int_span s) as [[[neg ints] r1]|] eqn:Hint; [|discriminate].
  apply int_span_shorter in Hint.
  pose proof (frac_span_length r1) as Hfrac.
  destruct (frac_span r1) as [frac r2]. cbn [snd] in Hfrac.
  pose proof (exp_span_length r2) as Hexp.
  destruct (exp_span r2) as [ex r3]. cbn [snd] in Hexp.
  destruct (frac ++ ex); intros [= _ <-]; lia.
Qed.

Lemma scan_scalar_shorter s v r :
  scan_scalar s = Some (v, r) -> (length r < length s)%nat.
Proof.
  unfold scan_scalar.
  destruct (after (lit "null") s) eqn:E1;
    [intros [= _ <-]; by apply after_shorter in E1|].
  destruct (after (lit "true") s) eqn:E2;
    [intros [= _ <-]; by apply after_shorter in E2|].
  destruct (after (lit "false") s) eqn:E3;
    [intros [= _ <-]; by apply after_shorter in E3|].
  destruct (match_number s) as [[v' r']|] eqn:E4;
    [intros [= _ <-]; by apply match_number_shorter in E4|].
  destruct (after (lit "NaN") s) eqn:E5;
    [intros [= _ <-]; by apply after_shorter in E5|].
  destruct (after (lit "Infinity") s) eqn:E6;
    [intros [= _ <-]; by apply after_shorter in E6|].
  destruct (after (lit "-Infinity") s) eqn:E7;
    [intros [= _ <-]; by apply after_shorter in E7|].
  discriminate.
Qed.

Lemma scan_consuming : forall f, consuming f.
Proof.
  induction f as [|f (IHscan & IHarr & IHitems & IHobj & IHpairs)].
  { repeat split; discriminate. }
  split; [|split; [|split; [|split]]].
  - intros s v r. rewrite scan_once_step. destruct s as [|c s1]; [discriminate|].
    destruct (c =? 34).
    { unfold scanstring. destruct (scan_chars SText s1) as [[x r']|] eqn:E; [|discriminate].
      intros [= _ <-]. apply scan_chars_shorter in E. simpl. lia. }
    destruct (c =? 123); [intros E; apply IHobj in E; simpl; lia|].
    destruct (c =? 91); [intros E; apply IHarr in E; simpl; lia|].
    destruct (scan_scalar (c :: s1)) as [[v' r']|] eqn:E; [|discriminate].
    intros [= _ <-]. by apply scan_scalar_shorter in E.
  - intros s v r. rewrite JSONArray_step.
    destruct (skip_ws s) as [|c r'] eqn:E; [discriminate|].
    pose proof (skip_ws_length s) as Hlen. rewrite E in Hlen. simpl in Hlen.
    destruct (c =? 93); [intros [= _ <-]; lia|].
    intros E'. apply IHitems in E'. simpl in E'. lia.
  - intros acc s v r. rewrite array_items_step.
    destruct (scan_once f s) as [v' r'| |] eqn:E; [|discriminate|discriminate].
    apply IHscan in E.
    destruct (skip_ws r') as [|c r1] eqn:E1; [discriminate|].
    apply skip_ws_cons in E1.
    destruct (c =? 93); [intros [= _ <-]; lia|].
    destruct (c =? 44); [|discriminate].
    intros E'. apply IHitems in E'. pose proof (skip_ws_length r1). lia.
  - intros s v r. rewrite JSONObject_step.
    destruct (skip_ws s) as [|c r'] eqn:E; [discriminate|].
    apply skip_ws_cons in E.
    destruct (c =? 125); [intros [= _ <-]; lia|].
    destruct (c =? 34); [|discriminate].
    intros E'. apply IHpairs in E'. lia.
  - intros pairs s v r. rewrite object_items_step.
    unfold scanstring. destruct (scan_chars SText s) as [[key r0]|] eqn:E0; [|discriminate].
    apply scan_chars_shorter in E0.
    destruct (skip_ws r0) as [|c r1] eqn:E1; [discriminate|].
    apply skip_ws_cons in E1.
    destruct (c =? 58); [|discriminate].
    destruct (scan_once f (skip_ws r1)) as [v' r2| |] eqn:E2; [|discriminate|discriminate].
    apply IHscan in E2. pose proof (skip_ws_length r1).
    destruct (skip_ws r2) as [|d r3] eqn:E3; [discriminate|].
    apply skip_ws_cons in E3.
    destruct (d =? 125); [intros [= _ <-]; lia|].
    destruct (d =? 44); [|discriminate].
    destruct (skip_ws r3) as [|q r4] eqn:E4; [discriminate|].
    apply skip_ws_cons in E4.
    destruct (q =? 34); [|discriminate].
    intros E'. apply IHpairs in E'. lia.
Qed.

(** ** The budget of the scanner *)

Lemma scan_within_budget : forall f, within_budget f.
Proof.
  induction f as [|f (IHscan & IHarr & IHitems & IHobj & IHpairs)].
  { repeat split; intros; lia. }
  destruct (scan_consuming f) as (Cscan & _).
  split; [|split; [|split; [|split]]].
  - intros s Hf. rewrite scan_once_step. destruct s as [|c s1]; [discriminate|].
    simpl in Hf.
    destruct (c =? 34); [destruct (scanstring s1) as [[x r]|]; discriminate|].
    destruct (c =? 123); [apply IHobj; lia|].
    destruct (c =? 91); [apply IHarr; lia|].
    destruct (scan_scalar (c :: s1)) as [[v r]|]; discriminate.
  - intros s Hf. rewrite JSONArray_step.
    destruct (skip_ws s) as [|c r] eqn:E; [discriminate|].
    pose proof (skip_ws_length s) as Hlen. rewrite E in Hlen.
    destruct (c =? 93); [discriminate|]. apply IHitems. lia.
  - intros acc s Hf. rewrite array_items_step.
    pose proof (IHscan s) as Hs.
    destruct (scan_once f s) as [v r| |] eqn:E; [|discriminate|apply Hs; lia].
    apply Cscan in E.
    destruct (skip_ws r) as [|c r1] eqn:E1; [discriminate|].
    apply skip_ws_cons in E1.
    destruct (c =? 93); [discriminate|].
    destruct (c =? 44); [|discriminate].
    apply IHitems. pose proof (skip_ws_length r1). lia.
  - intros s Hf. rewrite JSONObject_step.
    destruct (skip_ws s) as [|c r] eqn:E; [discriminate|].
    apply skip_ws_cons in E.
    destruct (c =? 125); [discriminate|].
    destruct (c =? 34); [|discriminate]. apply IHpairs. lia.
  - intros pairs s Hf. rewrite object_items_step.
    unfold scanstring. destruct (scan_chars SText s) as [[key r0]|] eqn:E0; [|discriminate].
    apply scan_chars_shorter in E0.
    destruct (skip_ws r0) as [|c r1] eqn:E1; [discriminate|].
    apply skip_ws_cons in E1.
    destruct (c =? 58); [|discriminate].
    pose proof (skip_ws_length r1) as Hlen1.
    pose proof (IHscan (skip_ws r1)) as Hs.
    destruct (scan_once f (skip_ws r1)) as [v r2| |] eqn:E2; [|discriminate|apply Hs; lia].
    apply Cscan in E2.
    destruct (skip_ws r2) as [|d r3] eqn:E3; [discriminate|].
    apply skip_ws_cons in E3.
    destruct (d =? 125); [discriminate|].
    destruct (d =? 44); [|discriminate].
    destruct (skip_ws r3) as [|q r4] eqn:E4; [discriminate|].
    apply skip_ws_cons in E4.
    destruct (q =? 34); [|discriminate].
    apply IHpairs. lia.
Qed.

Lemma scan_budget_stable : forall f, budget_stable f.
Proof.
  induction f as [|f (IHscan & IHarr & IHitems & IHobj & IHpairs)].
  { repeat split; intros; done. }
  split; [|split; [|split; [|split]]].
  - intros s. rewrite (scan_once_step (S f)), (scan_once_step f).
    destruct s as [|c s1]; [reflexivity|].
    destruct (c =? 34); [reflexivity|].
    destruct (c =? 123); [apply IHobj|].
    destruct (c =? 91); [apply IHarr|]. reflexivity.
  - intros s. rewrite (JSONArray_step (S f)), (JSONArray_step f).
    destruct (skip_ws s) as [|c r]; [reflexivity|].
    destruct (c =? 93); [reflexivity|]. apply IHitems.
  - intros acc s. rewrite (array_items_step (S f)), (array_items_step f).
    pose proof (IHscan s) as Hs.
    destruct (scan_once f s) as [v r| |] eqn:E; [| |done].
    + rewrite Hs by discriminate.
      destruct (skip_ws r) as [|c r1]; [reflexivity|].
      destruct (c =? 93); [reflexivity|].
      destruct (c =? 44); [|reflexivity]. apply IHitems.
    + rewrite Hs by discriminate. reflexivity.
  - intros s. rewrite (JSONObject_step (S f)), (JSONObject_step f).
    destruct (skip_ws s) as [|c r]; [reflexivity|].
    destruct (c =? 125); [reflexivity|].
    destruct (c =? 34); [|reflexivity]. apply IHpairs.
  - intros pairs s. rewrite (object_items_step (S f)), (object_items_step f).
    destruct (scanstring s) as [[key r0]|]; [|reflexivity].
    destruct (skip_ws r0) as [|c r1]; [reflexivity|].
    destruct (c =? 58); [|reflexivity].
    pose proof (IHscan (skip_ws r1)) as Hs.
    destruct (scan_once f (skip_ws r1)) as [v r2| |] eqn:E; [| |done].
    + rewrite Hs by discriminate.
      destruct (skip_ws r2) as [|d r3]; [reflexivity|].
      destruct (d =? 125); [reflexivity|].
      destruct (d =? 44); [|reflexivity].
      destruct (skip_ws r3) as [|q r4]; [reflexivity|].
      destruct (q =? 34); [|reflexivity]. apply IHpairs.
    + rewrite Hs by discriminate. reflexivity.
Qed.

Lemma scan_once_budget f f' s :
  (3 * length s < f)%nat -> (f <= f')%nat -> scan_once f' s = scan_once f s.
Proof.
  intros Hf Hle. induction Hle as [|f' Hle IH]; [reflexivity|].
  destruct (scan_budget_stable f') as (Hstable & _).
  rewrite Hstable; [exact IH|].
  destruct (scan_within_budget f') as (Hwithin & _). apply Hwithin. lia.
Qed.

(** [json.loads] decides every text: its budget is never used up. *)
Lemma loads_budget s : json_loads s <> Raise RecursionError.
Proof.
  unfold json_loads. destruct (startswith [65279] s); [discriminate|].
  destruct (scan_within_budget (3 * length s + 1)) as (Hwithin & _).
  specialize (Hwithin (skip_ws s)). pose proof (skip_ws_length s).
  destruct (scan_once _ _) as [v r| |]; [| discriminate | exfalso; apply Hwithin; [lia|done]].
  destruct (skip_ws r); discriminate.
Qed.

(** Whitespace around a text does not change what [json.loads] makes of
    it. *)
Lemma json_loads_padded pre s post :
  padding pre -> padding post ->
  json_loads (pre ++ s ++ post) = json_loads s.
Proof.
  intros Hpre Hpost.
  assert (Hskip_pre : forall t, skip_ws (pre ++ t) = skip_ws t).
  { intros t. unfold skip_ws. induction Hpre as [|c r Hc _ IH]; [reflexivity|].
    simpl. by rewrite Hc. }
  assert (Hbad : forall f r, scan_once f (65279 :: r) = Bad \/ scan_once f (65279 :: r) = Deep).
  { intros [|f] r; [by right|]. left. rewrite scan_once_step.
    change (65279 =? 34) with false. change (65279 =? 123) with false.
    change (65279 =? 91) with false. cbv iota. 
    replace (scan_scalar (65279 :: r)) with (@None (value * str)); reflexivity. }
  unfold json_loads.
  destruct (startswith [65279] s) eqn:Hbom.
  - (* a byte order mark after whitespace is no value either *)
    destruct s as [|c s']; [discriminate|].
    change (startswith [65279] (c :: s')) with ((65279 =? c) && true) in Hbom.
    rewrite andb_true_r in Hbom. apply N.eqb_eq in Hbom. subst c.
    destruct (startswith [65279] (pre ++ (65279 :: s') ++ post)); [reflexivity|].
    rewrite Hskip_pre. cbn [app skip_ws dropwhile]. change (is_ws 65279) with false. cbv iota.
    match goal with
    | |- context [scan_once ?f (65279 :: ?r)] =>
      destruct (Hbad f r) as [-> | Hdeep]; [reflexivity|];
      exfalso; destruct (scan_within_budget f) as (Hwithin & _);
      apply (Hwithin (65279 :: r)); [|exact Hdeep]
    end.
    rewrite !length_app. simpl. rewrite !length_app. lia.
  - assert (Hbom' : startswith [65279] (pre ++ s ++ post) = false).
    { destruct Hpre as [|c r Hc _].
      - destruct s as [|c s']; [|exact Hbom]. simpl app.
        destruct Hpost as [|c r Hc _]; [reflexivity|]. ws_cases Hc; reflexivity.
      - ws_cases Hc; reflexivity. }
    rewrite Hbom', Hskip_pre.
    destruct (scan_padded post Hpost (3 * length (pre ++ s ++ post) + 1)) as (Hpad & _).
    destruct (skip_ws_app post Hpost s) as [[Hnil ->] | [Hne ->]].
    + rewrite Hnil. rewrite !Nat.add_1_r. reflexivity.
    + rewrite Hpad.
      rewrite (scan_once_budget (3 * length s + 1) (3 * length (pre ++ s ++ post) + 1)).
      * destruct (scan_once (3 * length s + 1) (skip_ws s)) as [v r| |]; try reflexivity.
        cbn [extend].
        destruct (skip_ws_app post Hpost r) as [[-> ->] | [Hne' ->]]; [reflexivity|].
        by destruct (skip_ws r).
      * pose proof (skip_ws_length s). lia.
      * rewrite !length_app. lia.
Qed.

(* ===================================================================== *)
(** * Paths and the file system *)
(* ===================================================================== *)

Lemma names_component_snoc pre c : names_component (pre ++ [c]) = negb (c =? sep).
Proof. unfold names_component. by rewrite last_snoc. Qed.

Lemma lineage_plain name : forall pre,
  name <> [] -> Forall (fun c => c <> sep) name ->
  lineage pre name = [pre ++ name].
Proof.
  induction name as [|c r IH]; intros pre Hne Hall; [done|].
  inversion Hall as [|? ? Hc Hr]; subst. simpl.
  apply N.eqb_neq in Hc. rewrite Hc. simpl.
  destruct r as [|c' r'].
  - simpl. rewrite names_component_snoc, Hc. reflexivity.
  - rewrite IH by done. by rewrite <- app_assoc.
Qed.

Lemma lineage_sep s : forall pre t,
  lineage pre (s ++ sep :: t) = lineage pre s ++ lineage (pre ++ s ++ [sep]) t.
Proof.
  induction s as [|c s IH]; intros pre t; simpl.
  - destruct (names_component pre); reflexivity.
  - rewrite IH. rewrite <- !app_assoc. reflexivity.
Qed.

Lemma lineage_length s : forall pre p,
  In p (lineage pre s) -> (length p <= length pre + length s)%nat.
Proof.
  induction s as [|c s IH]; intros pre p; simpl.
  - destruct (names_component pre); simpl; [|tauto].
    intros [<- | []]. lia.
  - rewrite in_app_iff. intros [Hin | Hin].
    + destruct ((c =? sep) && names_component pre); simpl in Hin; [|tauto].
      destruct Hin as [<- | []]. lia.
    + apply IH in Hin. rewrite length_app in Hin. simpl in Hin. lia.
Qed.

Lemma path_join_plain d name :
  name <> [] -> Forall (fun c => c <> sep) name ->
  (length d < length (path_join d name))%nat
  /\ names_component (path_join d name) = true
  /\ (d <> [] -> parents (path_join d name) = lineage [] d)
  /\ basename (path_join d name) = name.
Proof.
  intros Hne Hall. unfold path_join.
  assert (Hstart : startswith [sep] name = false).
  { destruct name as [|c r]; [done|]. inversion Hall as [|? ? Hc ?]; subst.
    change (startswith [sep] (c :: r)) with ((sep =? c) && true).
    apply N.eqb_neq in Hc. rewrite N.eqb_sym in Hc. by rewrite Hc. }
  rewrite Hstart.
  assert (Hlast : exists c, last name = Some c /\ c <> sep).
  { destruct (last name) as [c|] eqn:E.
    - exists c. split; [done|]. apply last_Some in E as [l' ->].
      apply Forall_app in Hall as [_ Hc]. by inversion Hc.
    - apply last_None in E. done. }
  destruct Hlast as (z & Hz & Hzsep).
  assert (Hbase : forall pre, (forall c, last pre = Some c -> c = sep) ->
            basename (pre ++ name) = name).
  { intros pre Hpre. unfold basename. rewrite rev_app_distr.
    assert (Hk : forall l rest, Forall (fun c => c <> sep) l ->
               (match rest with [] => True | c :: _ => c = sep end) ->
               takewhile (fun c => negb (c =? sep)) (l ++ rest) = l).
    { induction l as [|c l IHl]; intros rest Hl Hrest; simpl.
      - destruct rest as [|c r]; [done|]. subst c. reflexivity.
      - inversion Hl as [|? ? Hc Hl']; subst. apply N.eqb_neq in Hc. rewrite Hc. simpl.
        f_equal. by apply IHl. }
    rewrite Hk.
    - apply rev_involutive.
    - apply List.Forall_forall. intros c Hc. apply in_rev in Hc.
      rewrite List.Forall_forall in Hall. by apply Hall.
    - destruct (rev pre) as [|c r] eqn:E; [done|].
      apply Hpre. rewrite <- (rev_involutive pre), E. simpl. by rewrite last_snoc. }
  destruct (last d) as [c|] eqn:Ed.
  - destruct (c =? sep) eqn:Ec.
    + apply N.eqb_eq in Ec. subst c. apply last_Some in Ed as [d' ->].
      repeat split.
      * rewrite !length_app. destruct name; [by destruct Hne|]. simpl. lia.
      * unfold names_component. rewrite last_app, Hz.
        apply N.eqb_neq in Hzsep. by rewrite Hzsep.
      * intros _. unfold parents. rewrite <- !app_assoc. simpl.
        rewrite lineage_sep. rewrite (lineage_plain name) by done.
        rewrite removelast_last.
        rewrite (lineage_sep d' [] []). simpl.
        rewrite names_component_snoc, N.eqb_refl. simpl.
        by rewrite app_nil_r.
      * apply Hbase. intros c. rewrite last_snoc. congruence.
    + repeat split.
      * rewrite length_app. simpl. lia.
      * unfold names_component. rewrite last_app. simpl.
        rewrite last_cons, Hz. apply N.eqb_neq in Hzsep. by rewrite Hzsep.
      * intros _. unfold parents. rewrite lineage_sep, (lineage_plain name) by done.
        by rewrite removelast_last.
      * change (d ++ sep :: name) with (d ++ [sep] ++ name). rewrite app_assoc.
        apply Hbase. intros c'. rewrite last_snoc. congruence.
  - apply last_None in Ed. subst d. simpl. repeat split.
    + destruct name; [by destruct Hne|]. simpl. lia.
    + unfold names_component. rewrite Hz. apply N.eqb_neq in Hzsep. by rewrite Hzsep.
    + done.
    + apply (Hbase []). simpl. congruence.
Qed.

(** ** Directories and files *)

Lemma with_dirs_nil fs : with_dirs [] fs = fs.
Proof.
  destruct fs as [ds fl]. unfold with_dirs. simpl. f_equal.
  apply union_empty_l_L.
Qed.

Lemma with_dirs_cons p ps fs : with_dirs (p :: ps) fs = with_dirs ps (add_dir p fs).
Proof.
  unfold with_dirs, add_dir. simpl. f_equal.
  apply set_eq. intros q. rewrite !elem_of_union. tauto.
Qed.

Lemma mkdirs_ok ps : forall fs,
  Forall (fun p => is_file p fs = false) ps ->
  mkdirs ps fs = (Ret tt, with_dirs ps fs).
Proof.
  induction ps as [|p ps IH]; intros fs Hall; simpl.
  - by rewrite with_dirs_nil.
  - inversion Hall as [|? ? Hp Hps]; subst. rewrite Hp.
    rewrite with_dirs_cons. apply IH. exact Hps.
Qed.

Lemma mkdirs_returned ps : forall fs fs',
  mkdirs ps fs = (Ret tt, fs') -> Forall (fun p => is_file p fs = false) ps.
Proof.
  induction ps as [|p ps IH]; intros fs fs' Hrun; simpl in Hrun; [constructor|].
  destruct (is_file p fs) eqn:Hp; [discriminate|].
  constructor; [exact Hp|]. exact (IH _ _ Hrun).
Qed.

Lemma makedirs_ok name fs :
  name <> [] -> Forall (fun p => is_file p fs = false) (lineage [] name) ->
  makedirs name fs = (Ret tt, with_dirs (lineage [] name) fs).
Proof.
  intros Hne Hall. unfold makedirs. destruct name; [done|]. by apply mkdirs_ok.
Qed.

Lemma makedirs_returned name fs fs' :
  makedirs name fs = (Ret tt, fs') ->
  name <> [] /\ Forall (fun p => is_file p fs = false) (lineage [] name).
Proof.
  unfold makedirs. destruct name; [discriminate|]. intros Hrun.
  split; [discriminate|]. exact (mkdirs_returned _ _ _ Hrun).
Qed.

(** Making directories that exist changes nothing. *)
Lemma with_dirs_again ps fs : with_dirs ps (with_dirs ps fs) = with_dirs ps fs.
Proof.
  unfold with_dirs. simpl. f_equal.
  apply set_eq. intros q. rewrite !elem_of_union. tauto.
Qed.

Lemma is_dir_with_dirs p ps fs :
  is_dir p (with_dirs ps fs) = false <-> is_dir p fs = false /\ ~ In p ps.
Proof.
  unfold is_dir, with_dirs. simpl.
  rewrite !bool_decide_eq_false, elem_of_union, elem_of_list_to_set, list_elem_of_In.
  tauto.
Qed.

Lemma is_dir_with_dirs_true p ps fs :
  In p ps -> is_dir p (with_dirs ps fs) = true.
Proof.
  intros Hin. unfold is_dir, with_dirs. simpl. apply bool_decide_eq_true.
  apply elem_of_union_l, elem_of_list_to_set, list_elem_of_In, Hin.
Qed.

Lemma put_file_again p c fs : put_file p c (put_file p c fs) = put_file p c fs.
Proof.
  unfold put_file. simpl. f_equal. apply insert_insert_eq.
Qed.


(** ** The name of the calendar file *)

Section FileName.
Context `{UnicodeDb}.

Lemma join_singletons (s : str) : join [] (List.map (fun c => [c]) s) = s.
Proof.
  induction s as [|c r IH]; [reflexivity|].
  simpl. destruct r as [|c' r']; [reflexivity|].
  simpl in *. by rewrite IH.
Qed.

Lemma safe_course_name_filter course :
  safe_course_name course = without_non_alnum course.
Proof.
  unfold safe_course_name. rewrite join_singletons.
  induction course as [|c r IH]; [reflexivity|].
  simpl. destruct (isalnum c); by rewrite IH.
Qed.

Lemma isalnum_not_sep c : isalnum c = true -> c <> sep.
Proof. intros Hc ->. discriminate Hc. Qed.

Lemma without_non_alnum_plain course :
  Forall (fun c => c <> sep) (without_non_alnum course).
Proof.
  induction course as [|c r IH]; simpl; [constructor|].
  destruct (isalnum c) eqn:Hc; [|exact IH].
  constructor; [by apply isalnum_not_sep | exact IH].
Qed.

Lemma file_name_plain course :
  let name := safe_course_name course ++ lit "_schedule.ics" in
  name <> [] /\ Forall (fun c => c <> sep) name.
Proof.
  simpl. split.
  - intros E. apply (f_equal (@length N)) in E. rewrite length_app in E.
    simpl in E. lia.
  - apply Forall_app. split.
    + rewrite safe_course_name_filter. apply without_non_alnum_plain.
    + repeat constructor; discriminate.
Qed.

End FileName.

(** ** The run of the calendar builder *)

Section Generate.
Context `{UnicodeDb} `{Formatting} `{Serializer}.

Lemma schedule_path_facts course output_dir :
  let path := schedule_path course output_dir in
  (length output_dir < length path)%nat
  /\ names_component path = true
  /\ (output_dir <> [] -> parents path = lineage [] output_dir)
  /\ basename path = safe_course_name course ++ lit "_schedule.ics".
Proof. apply path_join_plain; apply file_name_plain. Qed.

Lemma schedule_path_not_ancestor course output_dir :
  ~ In (schedule_path course output_dir) (lineage [] output_dir).
Proof.
  intros Hin. apply lineage_length in Hin.
  destruct (schedule_path_facts course output_dir) as [Hlen _].
  simpl in *. lia.
Qed.

Lemma write_lines_returned p lines fs fs' :
  write_lines p lines fs = (Ret tt, fs') -> fs' = put_file p (concat lines) fs.
Proof.
  unfold write_lines. destruct (is_dir p fs); [discriminate|].
  destruct (negb (names_component p)); [discriminate|].
  destruct (forallb _ _); [|discriminate]. by intros [= <-].
Qed.

Lemma write_lines_ok path lines fs :
  names_component path = true ->
  is_dir path (with_dirs (parents path) fs) = false ->
  write_lines path lines (with_dirs (parents path) fs)
  = (Ret tt, put_file path (concat lines) (with_dirs (parents path) fs)).
Proof.
  intros Hname Hdir. unfold write_lines. rewrite Hdir, Hname. simpl.
  replace (forallb _ _) with true; [reflexivity|].
  symmetry. apply forallb_forall. intros d Hd. by apply is_dir_with_dirs_true.
Qed.

(** The builder on a disk it can write on: the directories are made, the
    lines of the calendar that the loop built are the content of the file,
    and the path of the file is returned. *)
Lemma generate_writes course deadlines output_dir items cal w :
  truthy deadlines = true ->
  iterate deadlines = Ret items ->
  fst (add_events course items new_calendar w) = Ret cal ->
  can_write output_dir (schedule_path course output_dir) (disk w) ->
  exists w',
    generate_ical_file_tool course deadlines output_dir w
    = (Ret (schedule_path course output_dir), w')
    /\ disk w' = put_file (schedule_path course output_dir) (concat (calendar_lines cal))
                   (with_dirs (lineage [] output_dir) (disk w)).
Proof.
  intros Htruthy Hiter Hcal (Hne & Hfiles & Hdir).
  destruct (schedule_path_facts course output_dir) as (_ & Hname & Hparents & _).
  specialize (Hparents Hne).
  unfold generate_ical_file_tool, mbind, print, on_disk, lift, ret.
  cbn [disk console uuids drawn]. rewrite Htruthy. cbn [negb disk console uuids drawn].
  rewrite (makedirs_ok _ _ Hne Hfiles). rewrite Hiter. cbn [disk console uuids drawn].
  set (w1 := {| disk := with_dirs _ (disk w); console := _; uuids := _; drawn := _ |}).
  destruct (add_events course items new_calendar w1) as [r w2] eqn:Hrun.
  assert (Hr : r = Ret cal).
  { rewrite <- Hcal, (proj1 (add_events_result _ _ _ w w1 eq_refl eq_refl)), Hrun.
    reflexivity. }
  assert (Hd : disk w2 = disk w1).
  { rewrite <- (add_events_disk course items new_calendar w1), Hrun. reflexivity. }
  subst r. rewrite Hd. subst w1. cbn [disk console uuids drawn].
  rewrite <- Hparents. rewrite write_lines_ok.
  - eexists. split; reflexivity.
  - exact Hname.
  - rewrite Hparents. apply is_dir_with_dirs. split; [exact Hdir|].
    apply schedule_path_not_ancestor.
Qed.

(** What a run of the builder that returned went through. *)
Lemma generate_returned course deadlines output_dir w p w' :
  truthy deadlines = true ->
  generate_ical_file_tool course deadlines output_dir w = (Ret p, w') ->
  exists items cal,
    iterate deadlines = Ret items
    /\ fst (add_events course items new_calendar w) = Ret cal
    /\ can_write output_dir (schedule_path course output_dir) (disk w)
    /\ is_dir (schedule_path course output_dir)
         (with_dirs (lineage [] output_dir) (disk w)) = false.
Proof.
  intros Htruthy.
  unfold generate_ical_file_tool, mbind, print, on_disk, lift, ret.
  cbn [disk console uuids drawn]. rewrite Htruthy. cbn [negb disk console uuids drawn].
  destruct (makedirs output_dir (disk w)) as [[[]|e] fs1] eqn:Hmk; [|discriminate].
  destruct (makedirs_returned _ _ _ Hmk) as [Hne Hfiles].
  rewrite (makedirs_ok _ _ Hne Hfiles) in Hmk. injection Hmk as <-.
  destruct (iterate deadlines) as [items|e]; [|discriminate].
  cbn [disk console uuids drawn].
  set (w1 := {| disk := with_dirs _ (disk w); console := _; uuids := _; drawn := _ |}).
  destruct (add_events course items new_calendar w1) as [[cal|e] w2] eqn:Hrun; [|discriminate].
  assert (Hd : disk w2 = disk w1).
  { rewrite <- (add_events_disk course items new_calendar w1), Hrun. reflexivity. }
  assert (Hfst : fst (add_events course items new_calendar w) = Ret cal).
  { rewrite (proj1 (add_events_result _ _ _ w w1 eq_refl eq_refl)), Hrun. reflexivity. }
  rewrite Hd. subst w1. cbn [disk console uuids drawn].
  unfold write_lines.
  destruct (is_dir _ _) eqn:Hdir; [discriminate|].
  intros _. exists items, cal.
  split; [reflexivity|]. split; [exact Hfst|]. split; [|reflexivity].
  split; [exact Hne|]. split; [exact Hfiles|].
  apply is_dir_with_dirs in Hdir. tauto.
Qed.


End Generate.

(* ===================================================================== *)
(** * The extractor *)
(* ===================================================================== *)

(** ** The cleaning of the response *)

Lemma lstrip_head c s : isspace c = false -> lstrip (c :: s) = c :: s.
Proof. intros Hc. simpl. by rewrite Hc. Qed.

Lemma rstrip_last s c : isspace c = false -> rstrip (s ++ [c]) = s ++ [c].
Proof.
  intros Hc. unfold rstrip. rewrite rev_app_distr. simpl.
  rewrite Hc. simpl. by rewrite rev_involutive.
Qed.

Lemma strip_fenced t : strip (fenced t) = fenced t.
Proof.
  unfold strip, fenced.
  change (fence_json ++ t ++ fence) with (tick :: (lit "``json" ++ t ++ fence)).
  rewrite lstrip_head by reflexivity.
  change (tick :: (lit "``json" ++ t ++ fence))
    with (fence_json ++ t ++ [tick; tick] ++ [tick]).
  rewrite !app_assoc. by rewrite rstrip_last.
Qed.

Lemma clean_unfence text : clean_response text = unfence (strip text).
Proof. reflexivity. Qed.

(** Cleaning a fenced response is replacing the fences in what the fences
    enclose. *)
Lemma clean_fenced t : clean_response (fenced t) = unfence t.
Proof.
  unfold clean_response, unfence. rewrite strip_fenced. unfold fenced.
  rewrite (unfence_json_scan (fence_json ++ t ++ fence)).
  rewrite replace_scan_match by discriminate. simpl app.
  rewrite (replace_scan_after fence_json [] 110 fence eq_refl).
  - rewrite <- unfence_json_scan. apply replace_fence_closing.
  - repeat constructor; discriminate.
Qed.

Lemma padding_no_tick w : padding w -> Forall (fun c => c <> tick) w.
Proof.
  intros Hw. eapply Forall_impl; [exact Hw|]. intros c Hc ->. discriminate Hc.
Qed.

Lemma padding_no_n w : padding w -> Forall (fun c => c <> 110) w.
Proof.
  intros Hw. eapply Forall_impl; [exact Hw|]. intros c Hc ->. discriminate Hc.
Qed.

(** The replacements leave whitespace around a text where it is. *)
Lemma unfence_padded pre s post :
  padding pre -> padding post ->
  unfence (pre ++ s ++ post) = pre ++ unfence s ++ post.
Proof.
  intros Hpre Hpost. unfold unfence.
  rewrite (unfence_json_scan (pre ++ s ++ post)).
  rewrite (replace_scan_before fence_json [] tick (lit "``json") pre)
    by (reflexivity || by apply padding_no_tick).
  rewrite (replace_scan_after fence_json [] 110 post eq_refl) by (by apply padding_no_n).
  rewrite <- unfence_json_scan.
  rewrite (unfence_scan (pre ++ _)).
  rewrite (replace_scan_before fence [] tick [tick; tick] pre)
    by (reflexivity || by apply padding_no_tick).
  rewrite (replace_scan_after fence [] tick post eq_refl) by (by apply padding_no_tick).
  reflexivity.
Qed.

(** ** The extractor *)

(** What the extractor returns for a response that has a text: the decoded
    value, and the empty list when the text does not decode. *)
Lemma extract_answer syllabus text w :
  fst (extract_deadlines_from_syllabus_tool syllabus (answers text) w)
  = match json_loads (clean_response text) with
    | Ret v => Ret v
    | Raise _ => Ret (VList [])
    end.
Proof.
  unfold extract_deadlines_from_syllabus_tool, answers, mbind, print, lift, ret.
  cbn [bind get_text read_response].
  destruct (json_loads (clean_response text)) as [v|e]; [reflexivity|].
  destruct (is_JSONDecodeError e || is_AttributeError e); reflexivity.
Qed.

(** The extractor prints and does nothing else to the world. *)
Lemma extract_disk syllabus model w :
  disk (snd (extract_deadlines_from_syllabus_tool syllabus model w)) = disk w.
Proof.
  unfold extract_deadlines_from_syllabus_tool, mbind, print, lift, ret.
  cbn [disk console].
  destruct (bind (model _) _) as [v|e]; [reflexivity|].
  destruct (is_JSONDecodeError e || is_AttributeError e); [|reflexivity].
  destruct (bind (read_response _) get_text); reflexivity.
Qed.


(** ** Decoding the text of a record *)

Lemma scan_once_more f f' s :
  (f <= f')%nat -> scan_once f s <> Deep -> scan_once f' s = scan_once f s.
Proof.
  intros Hle Hf. induction Hle as [|f' Hle IH]; [reflexivity|].
  destruct (scan_budget_stable f') as (Hstable & _).
  rewrite Hstable; [exact IH|]. by rewrite IH.
Qed.

Lemma scan_chars_literal x rest :
  literal x -> scan_chars SText (x ++ 34 :: rest) = Some (x, rest).
Proof.
  intros Hx. induction Hx as [|c x Hc _ IH].
  - reflexivity.
  - cbn [app scan_chars string_step]. unfold text_step.
    unfold literal_char in Hc. apply andb_true_iff in Hc as [Hc H92].
    apply andb_true_iff in Hc as [H32 H34].
    apply negb_true_iff in H92, H34. rewrite H34, H92.
    apply N.leb_le in H32.
    destruct (c <=? 31) eqn:E; [apply N.leb_le in E; lia|].
    rewrite IH. reflexivity.
Qed.

Lemma skip_ws_other c s : is_ws c = false -> skip_ws (c :: s) = c :: s.
Proof. intros Hc. unfold skip_ws. simpl. by rewrite Hc. Qed.

Lemma skip_ws_space s : skip_ws (32 :: s) = skip_ws s.
Proof. reflexivity. Qed.

Lemma scanstring_literal x rest :
  literal x -> scanstring (x ++ 34 :: rest) = Some (x, rest).
Proof. apply scan_chars_literal. Qed.

Lemma record_text_parts n d t :
  record_text n d t
  = 91 :: 123 :: 34 ::
    (lit "assignment_name" ++ 34 :: 58 :: 32 :: 34 ::
    (n ++ 34 :: 44 :: 32 :: 34 ::
    (lit "due_date" ++ 34 :: 58 :: 32 :: 34 ::
    (d ++ 34 :: 44 :: 32 :: 34 ::
    (lit "assignment_type" ++ 34 :: 58 :: 32 :: 34 ::
    (t ++ 34 :: 125 :: [93])))))).
Proof. reflexivity. Qed.

(** Deciding the tests on the characters that are known. *)
Ltac known_chars :=
  repeat match goal with
         | |- context [N.eqb ?a ?b] =>
           let v := eval vm_compute in (N.eqb a b) in
           match v with
           | true => change (N.eqb a b) with true
           | false => change (N.eqb a b) with false
           end
         end;
  cbv iota.

Lemma scan_record_text n d t :
  literal n -> literal d -> literal t ->
  scan_once 12 (record_text n d t) = Got (VList [record n d t]) [].
Proof.
  intros Hn Hd Ht. rewrite record_text_parts.
  rewrite scan_once_step. known_chars.
  rewrite JSONArray_step, skip_ws_other by reflexivity. known_chars.
  rewrite array_items_step, scan_once_step. known_chars.
  rewrite JSONObject_step, skip_ws_other by reflexivity. known_chars.
  rewrite object_items_step, scanstring_literal by (repeat constructor).
  rewrite skip_ws_other by reflexivity. known_chars.
  rewrite skip_ws_space, skip_ws_other by reflexivity.
  rewrite scan_once_step. known_chars.
  rewrite scanstring_literal by exact Hn.
  rewrite skip_ws_other by reflexivity. known_chars.
  rewrite skip_ws_space, skip_ws_other by reflexivity. known_chars.
  rewrite object_items_step, scanstring_literal by (repeat constructor).
  rewrite skip_ws_other by reflexivity. known_chars.
  rewrite skip_ws_space, skip_ws_other by reflexivity.
  rewrite scan_once_step. known_chars.
  rewrite scanstring_literal by exact Hd.
  rewrite skip_ws_other by reflexivity. known_chars.
  rewrite skip_ws_space, skip_ws_other by reflexivity. known_chars.
  rewrite object_items_step, scanstring_literal by (repeat constructor).
  rewrite skip_ws_other by reflexivity. known_chars.
  rewrite skip_ws_space, skip_ws_other by reflexivity.
  rewrite scan_once_step. known_chars.
  rewrite scanstring_literal by exact Ht.
  rewrite skip_ws_other by reflexivity. known_chars.
  rewrite skip_ws_other by reflexivity. known_chars.
  reflexivity.
Qed.

Lemma loads_record_text n d t :
  literal n -> literal d -> literal t ->
  json_loads (record_text n d t) = Ret (VList [record n d t]).
Proof.
  intros Hn Hd Ht. unfold json_loads.
  assert (Hfuel : (12 <= 3 * length (record_text n d t) + 1)%nat).
  { rewrite record_text_parts. simpl. lia. }
  set (F := (3 * length (record_text n d t) + 1)%nat) in *.
  assert (Hstart : startswith [65279] (record_text n d t) = false)
    by (by rewrite record_text_parts).
  assert (Hskip : skip_ws (record_text n d t) = record_text n d t)
    by (by rewrite record_text_parts).
  rewrite Hstart, Hskip, (scan_once_more 12 F _ Hfuel); by rewrite scan_record_text.
Qed.

Lemma strip_ends c1 s c2 :
  isspace c1 = false -> isspace c2 = false ->
  strip (c1 :: s ++ [c2]) = c1 :: s ++ [c2].
Proof.
  intros H1 H2. unfold strip. rewrite lstrip_head by exact H1.
  change (c1 :: s ++ [c2]) with ((c1 :: s) ++ [c2]). by apply rstrip_last.
Qed.

Lemma strip_record_text n d t : strip (record_text n d t) = record_text n d t.
Proof.
  assert (Hends : exists s, record_text n d t = 91 :: s ++ [93]).
  { eexists. rewrite record_text_parts. f_equal.
    change (t ++ 34 :: 125 :: [93]) with (t ++ [34; 125] ++ [93]).
    rewrite (app_assoc t). 
    repeat match goal with
           | |- context [?a ++ ?c :: ?c1 :: ?c2 :: ?c3 :: (?b ++ [93])] =>
             change (a ++ c :: c1 :: c2 :: c3 :: (b ++ [93]))
               with (a ++ ([c; c1; c2; c3] ++ b) ++ [93]);
             rewrite (app_assoc a)
           end.
    change (123 :: 34 :: (?b ++ [93])) with ((123 :: 34 :: b) ++ [93]).
    reflexivity. }
  destruct Hends as [s ->]. by apply strip_ends.
Qed.

(** ** A fence inside a text without other backquotes *)

Lemma replace_tickless old new a old' s :
  old = a :: old' -> Forall (fun c => c <> a) s -> replace_scan old new 0 s = s.
Proof.
  intros Hold Hs.
  rewrite <- (app_nil_r s) at 1.
  rewrite (replace_scan_before old new a old' s [] Hold Hs). by rewrite app_nil_r.
Qed.


(** ** Fences anywhere in a text *)





Lemma unfence_before p s : tickless p -> unfence (p ++ s) = p ++ unfence s.
Proof.
  intros Hp. unfold unfence. rewrite !unfence_json_scan, !unfence_scan.
  rewrite (replace_scan_before fence_json [] tick (lit "``json") p) by done.
  by rewrite (replace_scan_before fence [] tick [tick; tick] p).
Qed.

Lemma unfence_none s : tickless s -> unfence s = s.
Proof.
  intros Hs. pose proof (unfence_before s [] Hs) as E.
  change (unfence []) with (@nil N) in E. by rewrite !app_nil_r in E.
Qed.






(** ** The text of a list of records *)










(** ** Decoding the text of a list of records *)














(* ===================================================================== *)
(** * The claims on the calendar builder *)
(* ===================================================================== *)


Section BuilderClaims.
Context `{UnicodeDb} `{Formatting} `{Serializer}.

(** A run of the builder on records that returned has returned the path
    of the schedule. *)
Lemma generate_returns_schedule_path course deadlines output_dir w p w' :
  truthy deadlines = true ->
  generate_ical_file_tool course deadlines output_dir w = (Ret p, w') ->
  p = schedule_path course output_dir.
Proof.
  intros Htruthy Hrun.
  destruct (generate_returned _ _ _ _ _ _ Htruthy Hrun)
    as (items & cal & Hiter & Hcal & Hcan & _).
  destruct (generate_writes _ _ _ _ _ _ Htruthy Hiter Hcal Hcan) as (w2 & Hrun2 & _).
  congruence.
Qed.


Lemma generate_nothing course deadlines output_dir w :
  truthy deadlines = false ->
  generate_ical_file_tool course deadlines output_dir w
  = (Ret [], {| disk := disk w; console := console w ++ [MsgGenerating];
                uuids := uuids w; drawn := drawn w |}).
Proof.
  intros Hfalsy. unfold generate_ical_file_tool, mbind, print, ret.
  by rewrite Hfalsy.
Qed.

End BuilderClaims.

(** C4: called with an empty sequence of records, the builder returns the
    empty string at once: it has printed its first message and nothing
    else, and the disk is as it was, so no directory and no file was
    created. *)
Theorem empty_records_nothing_written `{UnicodeDb} `{Formatting} `{Serializer}
    course output_dir w :
  let run := generate_ical_file_tool course (VList []) output_dir w in
  fst run = Ret []
  /\ disk (snd run) = disk w
  /\ console (snd run) = console w ++ [MsgGenerating].
Proof.
  cbv zeta. rewrite generate_nothing by reflexivity. auto.
Qed.











(** C5: whatever the course name and the directory, the name of the file
    the builder writes (the last component of its path) is the course name
    with its non-alphanumeric characters removed and nothing else altered,
    followed by [_schedule.ics]; the course name [CS 101: Intro!] gives
    [CS101Intro_schedule.ics]; and a run on records that returns, returns
    that path. *)
Theorem schedule_file_name `{UnicodeDb} `{Formatting} `{Serializer}
    course output_dir :
  basename (schedule_path course output_dir)
  = without_non_alnum course ++ lit "_schedule.ics"
  /\ basename (schedule_path (lit "CS 101: Intro!") output_dir)
     = lit "CS101Intro_schedule.ics"
  /\ (forall deadlines w p w',
        truthy deadlines = true ->
        generate_ical_file_tool course deadlines output_dir w = (Ret p, w') ->
        p = schedule_path course output_dir).
Proof.
  assert (Hname : forall c,
            basename (schedule_path c output_dir)
            = without_non_alnum c ++ lit "_schedule.ics").
  { intros c. destruct (schedule_path_facts c output_dir) as (_ & _ & _ & Hbase).
    simpl in Hbase. rewrite Hbase. by rewrite safe_course_name_filter. }
  split; [apply Hname|]. split; [by rewrite Hname|].
  intros deadlines w p w'. apply generate_returns_schedule_path.
Qed.

(* ===================================================================== *)
(** * The claims on the extractor and the orchestrator *)
(* ===================================================================== *)

(** C3: a response object without the attribute [text]. Reading it raises
    [AttributeError], the first handler takes it, and the message the
    handler formats reads [response.text] again: the extractor raises
    [AttributeError] instead of returning the empty list. When
    [generate_content] itself raises [AttributeError], the handler finds
    [response] unbound and the extractor raises [UnboundLocalError]. *)
Theorem missing_text_escapes_the_handler syllabus w :
  fst (extract_deadlines_from_syllabus_tool syllabus (fun _ => Ret (Response None)) w)
  = Raise AttributeError
  /\ fst (extract_deadlines_from_syllabus_tool syllabus (fun _ => Raise AttributeError) w)
     = Raise UnboundLocalError.
Proof. split; reflexivity. Qed.

(** The other half of C3 holds: a response whose cleaned text does not
    decode makes the extractor print the failure and return the empty
    list. *)
Lemma undecodable_text_returns_empty syllabus text e w :
  json_loads (clean_response text) = Raise e ->
  extract_deadlines_from_syllabus_tool syllabus (answers text) w
  = (Ret (VList []),
     {| disk := disk w;
        console := console w ++ [MsgUsingGemini;
                                  if is_JSONDecodeError e || is_AttributeError e
                                  then MsgParseError e text
                                  else MsgUnexpected e];
        uuids := uuids w; drawn := drawn w |}).
Proof.
  intros He.
  unfold extract_deadlines_from_syllabus_tool, answers, mbind, print, lift, ret.
  cbn [bind get_text read_response disk console uuids drawn]. rewrite He.
  destruct (is_JSONDecodeError e || is_AttributeError e); cbn; by rewrite <- app_assoc.
Qed.

Lemma undecodable_text_returns_empty_witness :
  fst (extract_deadlines_from_syllabus_tool (lit "Essay due Friday") (answers (lit "Sorry, no dates."))
         fresh_world)
  = Ret (VList []).
Proof.
  rewrite (undecodable_text_returns_empty _ _ JSONDecodeError); reflexivity.
Defined.

(** C7: when the extractor yields the empty sequence, whatever the course
    name and the syllabus, the orchestrator returns the failure message
    with no table and no file path; nothing was written to the disk. *)
Theorem empty_extraction_reports_failure `{UnicodeDb} `{Formatting} `{Serializer}
    {table : Type} (DataFrame : value -> result table)
    (gemini_model : str -> result response) course syllabus w w1 :
  extract_deadlines_from_syllabus_tool syllabus gemini_model w = (Ret (VList []), w1) ->
  process_syllabus DataFrame gemini_model course syllabus w
  = (Ret (failure_message, None, None), w1)
  /\ disk w1 = disk w.
Proof.
  intros Hextract. split.
  - unfold process_syllabus, mbind. rewrite Hextract. reflexivity.
  - rewrite <- (extract_disk syllabus gemini_model w), Hextract. reflexivity.
Qed.

Lemma empty_extraction_reports_failure_witness :
  fst (@process_syllabus ascii_only sample_formatting sample_serializer unit
         (fun _ => Ret tt) (answers (lit "[]")) (lit "CS 101") (lit "No deadlines.") fresh_world)
  = Ret (failure_message, None, None).
Proof.
  erewrite (proj1 (@empty_extraction_reports_failure ascii_only sample_formatting
                     sample_serializer unit (fun _ => Ret tt) (answers (lit "[]"))
                     (lit "CS 101") (lit "No deadlines.") fresh_world _ _)).
  - reflexivity.
  Unshelve. 2:{ vm_compute. reflexivity. }
Defined.

(** C6, counterexample: the text is a form feed followed by [[1]]. Without
    fences [strip] removes the form feed and the list is returned; between
    fences the form feed stays, the decoder refuses it, and the empty list
    is returned. *)
Lemma form_feed_parses_differently :
  fst (extract_deadlines_from_syllabus_tool [] (answers (12 :: lit "[1]")) fresh_world)
  = Ret (VList [VInt 1])
  /\ fst (extract_deadlines_from_syllabus_tool [] (answers (fenced (12 :: lit "[1]")))
            fresh_world)
     = Ret (VList []).
Proof. split; vm_compute; reflexivity. Qed.

(** C6 (as amended): cleaning a fenced response is replacing the fences in
    the enclosed text, without stripping it; and when the whitespace that
    [strip] removes around the enclosed text is whitespace of JSON (space,
    tab, line feed, carriage return), the fenced response decodes to what
    the enclosed text decodes to, and the extractor returns the same for
    both. *)
Theorem fenced_response_parses_alike syllabus t pre post w :
  t = pre ++ strip t ++ post ->
  padding pre -> padding post ->
  clean_response (fenced t) = unfence t
  /\ json_loads (clean_response (fenced t)) = json_loads (clean_response t)
  /\ fst (extract_deadlines_from_syllabus_tool syllabus (answers (fenced t)) w)
     = fst (extract_deadlines_from_syllabus_tool syllabus (answers t) w).
Proof.
  intros Ht Hpre Hpost.
  assert (Hloads : json_loads (clean_response (fenced t)) = json_loads (clean_response t)).
  { rewrite clean_fenced. rewrite Ht at 1.
    rewrite unfence_padded by assumption.
    rewrite json_loads_padded by assumption. reflexivity. }
  split; [apply clean_fenced|]. split; [exact Hloads|].
  by rewrite !extract_answer, Hloads.
Qed.

Lemma fenced_response_parses_alike_witness :
  let t := [10] ++ dq "[{'assignment_name': 'Essay 1', 'due_date': '2025-09-15', 'assignment_type': 'Essay'}]" ++ [10] in
  fst (extract_deadlines_from_syllabus_tool [] (answers (fenced t)) fresh_world)
  = fst (extract_deadlines_from_syllabus_tool [] (answers t) fresh_world).
Proof.
  cbv zeta.
  apply (fenced_response_parses_alike [] _ [10] [10] fresh_world).
  - vm_compute. reflexivity.
  - repeat constructor.
  - repeat constructor.
Defined.




(* ===================================================================== *)
(** * Further properties of the extractor *)
(* ===================================================================== *)

(** X2: when [model.generate_content] raises an exception that is neither
    [JSONDecodeError] nor [AttributeError], the second handler takes it:
    the extractor prints the unexpected error and returns the empty list. *)
Theorem unexpected_exception_returns_empty syllabus model e w :
  model (prompt_head ++ syllabus ++ prompt_tail) = Raise e ->
  is_JSONDecodeError e || is_AttributeError e = false ->
  extract_deadlines_from_syllabus_tool syllabus model w
  = (Ret (VList []),
     {| disk := disk w;
        console := console w ++ [MsgUsingGemini; MsgUnexpected e];
        uuids := uuids w; drawn := drawn w |}).
Proof.
  intros Hcall Hother.
  unfold extract_deadlines_from_syllabus_tool, mbind, print, lift, ret.
  cbn [disk console uuids drawn]. rewrite Hcall. cbn [bind]. rewrite Hother.
  cbn. by rewrite <- app_assoc.
Qed.

Lemma unexpected_exception_returns_empty_witness :
  fst (extract_deadlines_from_syllabus_tool (lit "Essay due Friday")
         (fun _ => Raise (OtherException (lit "DeadlineExceeded"))) fresh_world)
  = Ret (VList []).
Proof.
  rewrite (unexpected_exception_returns_empty _ _ (OtherException (lit "DeadlineExceeded")));
    reflexivity.
Defined.

(** X3: whatever the model does, the extractor leaves the disk as it is and
    only adds lines to the console, the first of them its opening
    message. *)
Theorem extractor_only_prints syllabus model w :
  let w' := snd (extract_deadlines_from_syllabus_tool syllabus model w) in
  disk w' = disk w
  /\ exists printed, console w' = console w ++ MsgUsingGemini :: printed.
Proof.
  cbv zeta. split; [apply extract_disk|].
  unfold extract_deadlines_from_syllabus_tool, mbind, print, lift, ret.
  cbn [disk console].
  destruct (bind (model _) _) as [v|e]; cbn.
  - eexists. by rewrite <- app_assoc.
  - destruct (is_JSONDecodeError e || is_AttributeError e).
    + destruct (bind (read_response _) get_text); cbn.
      * eexists. by rewrite <- app_assoc.
      * by eexists.
    + cbn. eexists. by rewrite <- app_assoc.
Qed.

Lemma lstrip_suffix s : exists pre, s = pre ++ lstrip s.
Proof.
  induction s as [|c s [pre IH]]; [by exists []|].
  simpl. destruct (isspace c); [|by exists []].
  exists (c :: pre). simpl. by f_equal.
Qed.

Lemma strip_infix s : exists pre post, s = pre ++ strip s ++ post.
Proof.
  destruct (lstrip_suffix s) as [pre Hpre].
  destruct (lstrip_suffix (rev (lstrip s))) as [tail Htail].
  exists pre, (rev tail). unfold strip, rstrip.
  rewrite <- rev_app_distr, <- Htail, rev_involutive. exact Hpre.
Qed.

(** X4: a response text without backquote is only stripped: the two
    replacements change nothing in it. *)
Theorem tickless_response_is_only_stripped text :
  tickless text -> clean_response text = strip text.
Proof.
  intros Htext.
  assert (Hstrip : tickless (strip text)).
  { destruct (strip_infix text) as (pre & post & E). rewrite E in Htext.
    apply Forall_app in Htext as [_ Htext]. by apply Forall_app in Htext as [Htext _]. }
  unfold clean_response.
  rewrite unfence_json_scan, (replace_tickless fence_json [] tick (lit "``json")) by done.
  rewrite unfence_scan. by apply (replace_tickless fence [] tick [tick; tick]).
Qed.

Lemma tickless_response_is_only_stripped_witness :
  clean_response (lit "  [1, 2]  ") = lit "[1, 2]".
Proof.
  rewrite tickless_response_is_only_stripped; [reflexivity|].
  repeat constructor; discriminate.
Defined.

(* ===================================================================== *)
(** * Further properties of the calendar builder *)
(* ===================================================================== *)

Section BuilderExtras.
Context `{UnicodeDb} `{Formatting} `{Serializer}.

Lemma strptime_valid s d : strptime s = Ret d -> valid_date d.
Proof.
  unfold strptime, valid_date.
  destruct (match_format s) as [[[[y m] dd] rest]|]; [|discriminate].
  destruct rest; [|discriminate].
  destruct (int_of y) as [y'|]; [|discriminate].
  destruct (int_of m) as [m'|]; [|discriminate].
  destruct (int_of dd) as [d'|]; [|discriminate].
  unfold make_date.
  destruct (in_range 1 9999 y' && in_range 1 12 m' && in_range 1 (days_in_month y' m') d')
    eqn:E; [|discriminate].
  intros [= <-]. exact E.
Qed.

Lemma event_with_course_event uid course item e :
  event_with uid course item = Ret e -> course_event course e.
Proof.
  unfold event_with, due_date_of, title_of.
  destruct (subscript item (lit "due_date")) as [due|]; [|discriminate]. cbn [bind].
  destruct due as [| | | |s| |]; try discriminate.
  destruct (strptime s) as [d|] eqn:Hd; [|discriminate]. cbn [bind].
  destruct (subscript item (lit "assignment_name")) as [n|]; [|discriminate]. cbn [bind].
  destruct (subscript item (lit "assignment_type")) as [t|]; [|discriminate]. cbn [bind].
  unfold make_all_day. cbn [ev_begin set_begin].
  destruct (is_last_day d); [discriminate|].
  intros [= <-]. split; [reflexivity|]. split.
  - exists d. split; [reflexivity|]. by apply strptime_valid in Hd.
  - eexists. reflexivity.
Qed.

Lemma add_events_course_events course items : forall cal w cal' w',
  add_events course items cal w = (Ret cal', w') ->
  Forall (course_event course) cal -> Forall (course_event course) cal'.
Proof.
  induction items as [|item rest IH]; intros cal w cal' w'; cbn [add_events].
  - unfold ret. intros [= <- _]. done.
  - rewrite make_event_run.
    destruct (event_with _ course item) as [e|e] eqn:He.
    + intros Hrun Hcal. apply (IH _ _ _ _ Hrun). unfold events_add.
      apply Forall_app. split; [exact Hcal|]. constructor; [|constructor].
      by apply event_with_course_event in He.
    + destruct (skipped e); [|discriminate].
      unfold mbind, print. intros Hrun Hcal. by apply (IH _ _ _ _ Hrun).
Qed.

Lemma add_events_accounts course items : forall cal w cal' w',
  add_events course items cal w = (Ret cal', w') ->
  (length cal' + skip_count (console w')
   = length cal + skip_count (console w) + length items)%nat.
Proof.
  induction items as [|item rest IH]; intros cal w cal' w'; cbn [add_events].
  - unfold ret. intros [= <- <-]. simpl. lia.
  - rewrite make_event_run.
    assert (Hconsole : console (if draws item
                                then {| disk := disk w; console := console w;
                                        uuids := uuids w; drawn := S (drawn w) |}
                                else w) = console w) by (by destruct (draws item)).
    destruct (event_with _ course item) as [e|e].
    + intros Hrun. apply IH in Hrun. unfold events_add in Hrun.
      rewrite length_app, Hconsole in Hrun. simpl in *. lia.
    + destruct (skipped e); [|discriminate].
      unfold mbind, print. intros Hrun. apply IH in Hrun.
      cbn [console] in Hrun. rewrite Hconsole in Hrun. unfold skip_count in *.
      rewrite List.filter_app, length_app in Hrun. simpl in *. lia.
Qed.

End BuilderExtras.

(** X5: every event the loop adds to an empty calendar is all-day, carries
    a date of the calendar (year 1 to 9999, a month, a day of that month)
    and a title that starts with the course name between brackets. *)
Theorem added_events_are_course_events `{UnicodeDb} `{Formatting} `{Serializer}
    course items w cal w' :
  add_events course items new_calendar w = (Ret cal, w') ->
  Forall (course_event course) cal.
Proof.
  intros Hrun. apply (add_events_course_events course items _ _ _ _ Hrun). constructor.
Qed.

Lemma added_events_are_course_events_witness :
  Forall (course_event (lit "CS"))
    [titled_event (lit "uid-") (lit "CS") (lit "Essay 1") (lit "Essay") (mkdate 2025 9 15)].
Proof.
  apply (@added_events_are_course_events ascii_only sample_formatting sample_serializer
           (lit "CS")
           [record (lit "Essay 1") (lit "2025-09-15") (lit "Essay"); VDict []]
           fresh_world _
           (snd (@add_events ascii_only sample_formatting (lit "CS")
                   [record (lit "Essay 1") (lit "2025-09-15") (lit "Essay"); VDict []]
                   new_calendar fresh_world))).
  reflexivity.
Defined.

(** X6: when the loop completes, every record is accounted for: the number
    of events in the calendar plus the number of records reported as
    skipped on the console has grown by the number of records. *)
Theorem every_record_is_added_or_reported `{UnicodeDb} `{Formatting} `{Serializer}
    course items cal w cal' w' :
  add_events course items cal w = (Ret cal', w') ->
  (length cal' + skip_count (console w')
   = length cal + skip_count (console w) + length items)%nat.
Proof. apply add_events_accounts. Qed.

Lemma every_record_is_added_or_reported_witness :
  let run := @add_events ascii_only sample_formatting (lit "CS")
               [record (lit "Essay 1") (lit "2025-09-15") (lit "Essay"); VDict [];
                record (lit "Quiz") (lit "tomorrow") (lit "Quiz")]
               new_calendar fresh_world in
  (length (match fst run with Ret cal => cal | Raise _ => [] end)
   + skip_count (console (snd run)) = 3)%nat.
Proof.
  cbv zeta.
  pose proof (@every_record_is_added_or_reported ascii_only sample_formatting sample_serializer
                (lit "CS")
                [record (lit "Essay 1") (lit "2025-09-15") (lit "Essay"); VDict [];
                 record (lit "Quiz") (lit "tomorrow") (lit "Quiz")]
                new_calendar fresh_world
                [titled_event (lit "uid-") (lit "CS") (lit "Essay 1") (lit "Essay")
                   (mkdate 2025 9 15)]
                _ eq_refl) as Hcount.
  exact Hcount.
Defined.

Section RunExtras.
Context `{UnicodeDb} `{Formatting} `{Serializer}.

Lemma mkdirs_files ps : forall fs, files (snd (mkdirs ps fs)) = files fs.
Proof.
  induction ps as [|p ps IH]; intros fs; [reflexivity|]. simpl.
  destruct (is_file p fs); [reflexivity|]. by rewrite IH.
Qed.

Lemma mkdirs_dirs ps : forall fs q,
  is_dir q fs = true -> is_dir q (snd (mkdirs ps fs)) = true.
Proof.
  induction ps as [|p ps IH]; intros fs q Hq; [exact Hq|]. simpl.
  destruct (is_file p fs); [exact Hq|]. apply IH.
  unfold is_dir, add_dir in *. simpl. apply bool_decide_eq_true.
  apply bool_decide_eq_true in Hq. by apply elem_of_union_r.
Qed.

Lemma makedirs_files name fs : files (snd (makedirs name fs)) = files fs.
Proof. unfold makedirs. destruct name; [reflexivity|]. apply mkdirs_files. Qed.

Lemma makedirs_dirs name fs q :
  is_dir q fs = true -> is_dir q (snd (makedirs name fs)) = true.
Proof. unfold makedirs. destruct name; [done|]. apply mkdirs_dirs. Qed.

Lemma write_lines_raise p lines fs e fs' :
  write_lines p lines fs = (Raise e, fs') -> fs' = fs.
Proof.
  unfold write_lines. destruct (is_dir p fs); [by intros [= _ <-]|].
  destruct (negb (names_component p)); [by intros [= _ <-]|].
  destruct (forallb _ _); [discriminate|]. by intros [= _ <-].
Qed.

(** The disk after a run of the builder: the directories that were there
    are there, and the files are as they were but for the calendar file. *)
Lemma generate_disk course deadlines output_dir w :
  let w' := snd (generate_ical_file_tool course deadlines output_dir w) in
  (files (disk w') = files (disk w)
   \/ exists content,
        files (disk w') = <[schedule_path course output_dir := content]> (files (disk w)))
  /\ (forall q, is_dir q (disk w) = true -> is_dir q (disk w') = true).
Proof.
  cbv zeta.
  unfold generate_ical_file_tool, mbind, print, on_disk, lift, ret.
  cbn [disk console uuids drawn].
  destruct (negb (truthy deadlines)).
  { cbn. split; [left; reflexivity | intros q Hq; exact Hq]. }
  cbn [disk console uuids drawn].
  pose proof (makedirs_files output_dir (disk w)) as Hfiles.
  pose proof (makedirs_dirs output_dir (disk w)) as Hdirs.
  destruct (makedirs output_dir (disk w)) as [[[]|e] fs1]; cbn [snd] in Hfiles, Hdirs.
  2:{ cbn. split; [left; exact Hfiles | exact Hdirs]. }
  destruct (iterate deadlines) as [items|e].
  2:{ cbn. split; [left; exact Hfiles | exact Hdirs]. }
  cbn [disk console uuids drawn].
  set (w1 := {| disk := fs1; console := _; uuids := _; drawn := _ |}).
  pose proof (add_events_disk course items new_calendar w1) as Hloop.
  destruct (add_events course items new_calendar w1) as [[cal|e] w2]; cbn [snd] in Hloop.
  2:{ cbn [snd]. rewrite Hloop. cbn. split; [left; exact Hfiles | exact Hdirs]. }
  rewrite Hloop. subst w1. cbn [disk console uuids drawn].
  destruct (write_lines _ _ fs1) as [[[]|e] fs2] eqn:Hwrite.
  - apply write_lines_returned in Hwrite. subst fs2. cbn [snd disk]. split.
    + right. eexists. unfold put_file. cbn [files]. by rewrite Hfiles.
    + exact Hdirs.
  - apply write_lines_raise in Hwrite. subst fs2. cbn [snd disk].
    split; [left; exact Hfiles | exact Hdirs].
Qed.

End RunExtras.

(** X10: whatever the records and however the run ends, the builder
    leaves every file other than the calendar file as it was, removes no
    file and removes no directory. *)
Theorem builder_touches_only_the_schedule `{UnicodeDb} `{Formatting} `{Serializer}
    course deadlines output_dir w :
  let w' := snd (generate_ical_file_tool course deadlines output_dir w) in
  (forall q, q <> schedule_path course output_dir ->
     files (disk w') !! q = files (disk w) !! q)
  /\ (forall q, is_file q (disk w) = true -> is_file q (disk w') = true)
  /\ (forall q, is_dir q (disk w) = true -> is_dir q (disk w') = true).
Proof.
  cbv zeta.
  destruct (generate_disk course deadlines output_dir w) as [Hfiles Hdirs].
  cbv zeta in Hfiles, Hdirs. split; [|split; [|exact Hdirs]].
  - intros q Hq. destruct Hfiles as [-> | [content ->]]; [reflexivity|].
    by rewrite lookup_insert_ne.
  - intros q. unfold is_file. rewrite !bool_decide_eq_true.
    destruct Hfiles as [-> | [content ->]]; [done|].
    intros Hq. destruct (decide (schedule_path course output_dir = q)) as [<-|Hne].
    + by rewrite lookup_insert_eq.
    + by rewrite lookup_insert_ne.
Qed.

Section LoopExtras.
Context `{UnicodeDb} `{Formatting} `{Serializer}.



(** A run of the builder whose loop raises: the directories are made, the
    exception leaves the function and no file is opened. *)
Lemma generate_loop_raises course deadlines output_dir items e w :
  truthy deadlines = true ->
  iterate deadlines = Ret items ->
  fst (add_events course items new_calendar w) = Raise e ->
  can_make output_dir (disk w) ->
  exists w',
    generate_ical_file_tool course deadlines output_dir w = (Raise e, w')
    /\ disk w' = with_dirs (lineage [] output_dir) (disk w).
Proof.
  intros Htruthy Hiter Hloop (Hne & Hfiles).
  unfold generate_ical_file_tool, mbind, print, on_disk, lift, ret.
  cbn [disk console uuids drawn]. rewrite Htruthy. cbn [negb disk console uuids drawn].
  rewrite (makedirs_ok _ _ Hne Hfiles). rewrite Hiter. cbn [disk console uuids drawn].
  set (w1 := {| disk := with_dirs _ (disk w); console := _; uuids := _; drawn := _ |}).
  pose proof (add_events_disk course items new_calendar w1) as Hdisk.
  rewrite (proj1 (add_events_result _ _ _ w w1 eq_refl eq_refl)) in Hloop.
  destruct (add_events course items new_calendar w1) as [r w2].
  cbn [fst snd] in *. subst r. eexists. split; [reflexivity|]. exact Hdisk.
Qed.

(** A truthy value that is no list makes the loop raise [TypeError]: a
    number or [True] is not iterable, a dict yields its keys and a string
    its characters, which are strings and cannot be subscripted by a key. *)
Lemma non_list_loop_raises course deadlines w :
  truthy deadlines = true -> (forall l, deadlines <> VList l) ->
  iterate deadlines = Raise TypeError
  \/ exists items, iterate deadlines = Ret items
       /\ fst (add_events course items new_calendar w) = Raise TypeError.
Proof.
  intros Htruthy Hlist.
  destruct deadlines as [|b|z|x|s|l|d]; try (left; reflexivity).
  - right. destruct s as [|c s]; [discriminate|].
    eexists. split; [reflexivity|]. reflexivity.
  - by destruct (Hlist l).
  - right. destruct d as [|[k v] d]; [discriminate|].
    eexists. split; [reflexivity|]. reflexivity.
Qed.

End LoopExtras.

Section LoopExtras2.
Context `{UnicodeDb} `{Formatting} `{Serializer}.

Lemma generate_not_iterable course deadlines output_dir e w :
  truthy deadlines = true ->
  iterate deadlines = Raise e ->
  can_make output_dir (disk w) ->
  exists w',
    generate_ical_file_tool course deadlines output_dir w = (Raise e, w')
    /\ disk w' = with_dirs (lineage [] output_dir) (disk w).
Proof.
  intros Htruthy Hiter (Hne & Hfiles).
  unfold generate_ical_file_tool, mbind, print, on_disk, lift, ret.
  cbn [disk console uuids drawn]. rewrite Htruthy. cbn [negb disk console uuids drawn].
  rewrite (makedirs_ok _ _ Hne Hfiles). rewrite Hiter. cbn [disk console uuids drawn].
  eexists. split; reflexivity.
Qed.

Lemma generate_non_list course deadlines output_dir w :
  truthy deadlines = true -> (forall l, deadlines <> VList l) ->
  can_make output_dir (disk w) ->
  exists w',
    generate_ical_file_tool course deadlines output_dir w = (Raise TypeError, w')
    /\ disk w' = with_dirs (lineage [] output_dir) (disk w).
Proof.
  intros Htruthy Hlist Hcan.
  destruct (non_list_loop_raises course deadlines w Htruthy Hlist)
    as [Hiter | (items & Hiter & Hloop)].
  - by apply generate_not_iterable.
  - by apply (generate_loop_raises course deadlines output_dir items).
Qed.

End LoopExtras2.

(** X7: a record whose date parses but which lacks [assignment_name] or
    [assignment_type] is skipped: the loop prints the [KeyError] of the
    missing key, adds no event for it and goes on with the next record.
    [Event()] was called before the key was missed, so one identifier of
    the source is used up. *)
Theorem record_without_name_or_type_is_skipped `{UnicodeDb} `{Formatting} `{Serializer}
    course d s dt rest cal w :
  dict_get (lit "due_date") d = Some (VStr s) ->
  strptime s = Ret dt ->
  dict_get (lit "assignment_name") d = None
  \/ dict_get (lit "assignment_type") d = None ->
  exists key,
    (key = lit "assignment_name" \/ key = lit "assignment_type")
    /\ dict_get key d = None
    /\ add_events course (VDict d :: rest) cal w
       = add_events course rest cal
           {| disk := disk w;
              console := console w ++ [MsgSkipping (VDict d) (KeyError key)];
              uuids := uuids w; drawn := S (drawn w) |}.
Proof.
  intros Hdue Hdate Hmissing. cbn [add_events]. rewrite make_event_run.
  unfold draws, event_with, due_date_of, title_of, subscript.
  rewrite Hdue. cbn [bind]. rewrite Hdate. cbn [bind].
  destruct (dict_get (lit "assignment_name") d) as [n|] eqn:Hn.
  - destruct Hmissing as [|Ht]; [discriminate|]. rewrite Ht. cbn [bind].
    exists (lit "assignment_type"). split; [by right|]. split; [exact Ht|]. reflexivity.
  - cbn [bind]. exists (lit "assignment_name"). split; [by left|]. split; [exact Hn|].
    reflexivity.
Qed.

Lemma record_without_name_or_type_is_skipped_witness :
  let item := VDict [(lit "due_date", VStr (lit "2025-09-15"));
                     (lit "assignment_name", VStr (lit "Essay 1"))] in
  exists key,
    (key = lit "assignment_name" \/ key = lit "assignment_type")
    /\ dict_get key [(lit "due_date", VStr (lit "2025-09-15"));
                     (lit "assignment_name", VStr (lit "Essay 1"))] = None
    /\ @add_events ascii_only sample_formatting (lit "CS") [item] [] fresh_world
       = (Ret [], {| disk := empty_disk;
                     console := [MsgSkipping item (KeyError key)];
                     uuids := sample_uuids; drawn := 1 |}).
Proof.
  cbv zeta.
  destruct (@record_without_name_or_type_is_skipped ascii_only sample_formatting
              sample_serializer (lit "CS")
              [(lit "due_date", VStr (lit "2025-09-15"));
               (lit "assignment_name", VStr (lit "Essay 1"))]
              (lit "2025-09-15") (mkdate 2025 9 15) [] [] fresh_world
              eq_refl eq_refl (or_intror eq_refl))
    as (key & Hkey & Hnone & Hrun).
  exists key. split; [exact Hkey|]. split; [exact Hnone|]. exact Hrun.
Defined.



(** X9: records that are truthy but not a list (a non-empty object or
    string, a non-zero number, [True]) make the builder raise [TypeError]
    after it has made the directories; no file is written. *)
Theorem non_list_records_raise_type_error `{UnicodeDb} `{Formatting} `{Serializer}
    course deadlines output_dir w :
  truthy deadlines = true ->
  (forall l, deadlines <> VList l) ->
  can_make output_dir (disk w) ->
  let run := generate_ical_file_tool course deadlines output_dir w in
  fst run = Raise TypeError
  /\ disk (snd run) = with_dirs (lineage [] output_dir) (disk w).
Proof.
  intros Htruthy Hlist Hcan. cbv zeta.
  destruct (generate_non_list course deadlines output_dir w Htruthy Hlist Hcan)
    as (w' & Hrun & Hdisk).
  by rewrite Hrun.
Qed.

Lemma non_list_records_raise_type_error_witness :
  let run := @generate_ical_file_tool ascii_only sample_formatting sample_serializer
               (lit "CS") (record (lit "Essay 1") (lit "2025-09-15") (lit "Essay"))
               (lit "calendars") fresh_world in
  fst run = Raise TypeError
  /\ disk (snd run) = with_dirs [lit "calendars"] empty_disk.
Proof.
  cbv zeta.
  apply (@non_list_records_raise_type_error ascii_only sample_formatting sample_serializer
           (lit "CS") (record (lit "Essay 1") (lit "2025-09-15") (lit "Essay"))
           (lit "calendars") fresh_world).
  - reflexivity.
  - discriminate.
  - split; [discriminate|]. repeat constructor.
Defined.

Section PathExtras.
Context `{UnicodeDb} `{Formatting} `{Serializer}.

Lemma path_join_inj d a b :
  startswith [sep] a = false -> startswith [sep] b = false ->
  path_join d a = path_join d b -> a = b.
Proof.
  unfold path_join. intros -> ->.
  destruct (last d) as [c|]; [destruct (c =? sep)|]; intros E.
  - by apply app_inv_head in E.
  - apply app_inv_head in E. by injection E.
  - by apply app_inv_head in E.
Qed.

Lemma file_name_start course :
  startswith [sep] (safe_course_name course ++ lit "_schedule.ics") = false.
Proof.
  destruct (file_name_plain course) as [_ Hall]. cbv zeta in Hall.
  destruct (safe_course_name course ++ lit "_schedule.ics") as [|c r]; [reflexivity|].
  inversion Hall as [|? ? Hc _]; subst. cbn [startswith].
  apply N.eqb_neq in Hc. rewrite N.eqb_sym in Hc. by rewrite Hc.
Qed.

Lemma schedule_parents course output_dir :
  parents (schedule_path course output_dir) = lineage [] output_dir.
Proof.
  destruct output_dir as [|c d].
  - unfold schedule_path, path_join. rewrite file_name_start. cbn [last app].
    destruct (file_name_plain course) as [Hne Hall]. cbv zeta in Hne, Hall.
    unfold parents. rewrite (lineage_plain _ [] Hne Hall). reflexivity.
  - by apply schedule_path_facts.
Qed.

End PathExtras.

Section DiskExtras.
Context `{UnicodeDb} `{Formatting} `{Serializer}.

Lemma generate_cannot_make course deadlines output_dir w :
  truthy deadlines = true ->
  ~ can_make output_dir (disk w) ->
  exists e fs,
    generate_ical_file_tool course deadlines output_dir w
    = (Raise e, {| disk := fs; console := console w ++ [MsgGenerating];
                   uuids := uuids w; drawn := drawn w |})
    /\ files fs = files (disk w).
Proof.
  intros Htruthy Hcannot.
  unfold generate_ical_file_tool, mbind, print, on_disk, lift, ret.
  cbn [disk console uuids drawn]. rewrite Htruthy. cbn [negb disk console uuids drawn].
  pose proof (makedirs_files output_dir (disk w)) as Hfiles.
  destruct (makedirs output_dir (disk w)) as [[[]|e] fs] eqn:Hmake; cbn [snd] in Hfiles.
  - destruct Hcannot. by apply makedirs_returned in Hmake.
  - exists e, fs. split; [reflexivity | exact Hfiles].
Qed.


End DiskExtras.

(** X11: the directories the calendar file lies in are those of
    [output_dir] and no other: whatever characters the course name holds,
    it adds no directory level to the path. *)
Theorem schedule_lies_in_output_dir `{UnicodeDb} `{Formatting} `{Serializer}
    course output_dir :
  parents (schedule_path course output_dir) = lineage [] output_dir
  /\ names_component (schedule_path course output_dir) = true.
Proof.
  split; [apply schedule_parents | apply schedule_path_facts].
Qed.

(** X12: two course names get the same calendar file in a directory
    exactly when they have the same alphanumeric characters in the same
    order; so the run for one of them overwrites the file of the other. *)
Theorem same_alnum_same_file `{UnicodeDb} `{Formatting} `{Serializer}
    course1 course2 output_dir :
  schedule_path course1 output_dir = schedule_path course2 output_dir
  <-> List.filter isalnum course1 = List.filter isalnum course2.
Proof.
  unfold schedule_path. split.
  - intros E. apply path_join_inj in E; try apply file_name_start.
    apply app_inv_tail in E. unfold safe_course_name in E.
    by rewrite !join_singletons in E.
  - intros E. unfold safe_course_name. by rewrite E.
Qed.

(** X14: when the output directory cannot be made (its name is empty, or
    a file stands at it or at one of its ancestors), a run on truthy
    records raises at once: only the first message is printed, no record
    is looked at and the files are as they were. *)
Theorem unusable_output_dir_stops_the_run `{UnicodeDb} `{Formatting} `{Serializer}
    course deadlines output_dir w :
  truthy deadlines = true ->
  ~ can_make output_dir (disk w) ->
  let run := generate_ical_file_tool course deadlines output_dir w in
  (exists e, fst run = Raise e)
  /\ files (disk (snd run)) = files (disk w)
  /\ console (snd run) = console w ++ [MsgGenerating].
Proof.
  intros Htruthy Hcannot. cbv zeta.
  destruct (generate_cannot_make course deadlines output_dir w Htruthy Hcannot)
    as (e & fs & Hrun & Hfiles).
  rewrite Hrun. cbn. split; [by exists e|]. split; [exact Hfiles | reflexivity].
Qed.

Lemma unusable_output_dir_stops_the_run_witness :
  let w := {| disk := put_file (lit "calendars") (lit "notes") empty_disk; console := [];
             uuids := sample_uuids; drawn := 0 |} in
  let run := @generate_ical_file_tool ascii_only sample_formatting sample_serializer
               (lit "CS") (VList [record (lit "Essay 1") (lit "2025-09-15") (lit "Essay")])
               (lit "calendars") w in
  (exists e, fst run = Raise e)
  /\ files (disk (snd run)) = files (disk w)
  /\ console (snd run) = [MsgGenerating].
Proof.
  cbv zeta.
  apply (@unusable_output_dir_stops_the_run ascii_only sample_formatting sample_serializer
           (lit "CS") (VList [record (lit "Essay 1") (lit "2025-09-15") (lit "Essay")])
           (lit "calendars")
           {| disk := put_file (lit "calendars") (lit "notes") empty_disk; console := [];
             uuids := sample_uuids; drawn := 0 |}).
  - reflexivity.
  - intros [_ Hfiles]. inversion Hfiles as [|? ? Hfile _]; subst.
    unfold is_file, put_file in Hfile. cbn [disk files] in Hfile.
    apply bool_decide_eq_false in Hfile. apply Hfile.
    rewrite lookup_insert_eq. by eexists.
Defined.



(** X21: the builder returns the empty string only for records that are
    falsy (the empty list, and [None], zero, the empty string and the empty
    object as well), and then it has touched nothing on the disk; a run on a
    non-empty list that returns, returns a path that is not empty. *)
Theorem empty_result_means_no_records `{UnicodeDb} `{Formatting} `{Serializer}
    course deadlines output_dir w w' :
  generate_ical_file_tool course deadlines output_dir w = (Ret [], w') ->
  truthy deadlines = false
  /\ (forall items, deadlines = VList items -> items = [])
  /\ disk w' = disk w.
Proof.
  intros Hrun. destruct (truthy deadlines) eqn:Htruthy.
  - pose proof (generate_returns_schedule_path _ _ _ _ _ _ Htruthy Hrun) as Hpath.
    destruct (schedule_path_facts course output_dir) as [Hlen _]. cbv zeta in Hlen.
    rewrite <- Hpath in Hlen. cbn in Hlen. lia.
  - split; [reflexivity|]. split.
    + intros items ->. cbn in Htruthy. apply negb_false_iff, bool_decide_eq_true in Htruthy.
      exact Htruthy.
    + rewrite (generate_nothing _ _ _ _ Htruthy) in Hrun. by injection Hrun as <-.
Qed.

Lemma empty_result_means_no_records_witness :
  truthy VNone = false
  /\ disk (snd (@generate_ical_file_tool ascii_only sample_formatting sample_serializer
                  (lit "CS 101") VNone (lit "calendars") fresh_world))
     = empty_disk.
Proof.
  destruct (@empty_result_means_no_records ascii_only sample_formatting sample_serializer
              (lit "CS 101") VNone (lit "calendars") fresh_world
              (snd (@generate_ical_file_tool ascii_only sample_formatting sample_serializer
                      (lit "CS 101") VNone (lit "calendars") fresh_world)))
    as (Hfalsy & _ & Hdisk).
  - reflexivity.
  - split; [exact Hfalsy | exact Hdisk].
Defined.

(* ===================================================================== *)
(** * Dates in ISO form *)
(* ===================================================================== *)

Section DateExtras.
Context `{UnicodeDb} `{Formatting} `{Serializer}.

Lemma tens a : exists q r, a / 10 = q /\ a mod 10 = r /\ a = 10 * q + r /\ r < 10.
Proof.
  exists (a / 10), (a mod 10). repeat split.
  - by apply N.div_mod.
  - by apply N.mod_upper_bound.
Qed.

Lemma digit_char_range n : in_range 48 57 (digit_char n) = true.
Proof.
  unfold digit_char, in_range. destruct (tens n) as (q & r & _ & -> & _ & Hr).
  apply andb_true_iff. split; apply N.leb_le; lia.
Qed.

Lemma digit_not_space c : in_range 48 57 c = true -> isspace c = false.
Proof.
  unfold in_range. intros Hc. apply andb_true_iff in Hc as [Hlo Hhi].
  apply N.leb_le in Hlo, Hhi. unfold isspace, in_range.
  repeat match goal with
         | |- context [?a <=? ?b] => destruct (N.leb_spec a b); try lia
         | |- context [?a =? ?b] => destruct (N.eqb_spec a b); try lia
         end; reflexivity.
Qed.

Lemma decimal_digit_char n : decimal (digit_char n) = Some (n mod 10).
Proof.
  unfold decimal. rewrite digit_char_range. f_equal. unfold digit_char.
  generalize (n mod 10). intros k. lia.
Qed.

Lemma is_decimal_digit_char n : is_decimal (digit_char n) = true.
Proof. unfold is_decimal. by rewrite decimal_digit_char. Qed.

Lemma strip_digits a b c d :
  isspace a = false -> isspace d = false -> strip [a; b; c; d] = [a; b; c; d].
Proof. intros Ha Hd. by apply (strip_ends a [b; c] d). Qed.

Lemma int_of_year y :
  y <= 9999 ->
  int_of [digit_char (y / 1000); digit_char (y / 100); digit_char (y / 10); digit_char y]
  = Some y.
Proof.
  intros Hy. unfold int_of.
  rewrite strip_digits by (apply digit_not_space, digit_char_range).
  cbn [mapM]. rewrite !decimal_digit_char. cbn. f_equal.
  unfold digits_value. cbn [fold_left].
  replace (y / 100) with (y / 10 / 10) by (by rewrite N.Div0.div_div).
  replace (y / 1000) with (y / 10 / 10 / 10) by (by rewrite !N.Div0.div_div).
  destruct (tens y) as (q1 & r0 & Hq1 & -> & -> & ?). rewrite Hq1.
  destruct (tens q1) as (q2 & r1 & Hq2 & -> & -> & ?). rewrite Hq2.
  destruct (tens q2) as (q3 & r2 & Hq3 & -> & -> & ?). rewrite Hq3.
  destruct (tens q3) as (q4 & r3 & Hq4 & -> & -> & ?).
  lia.
Qed.

Lemma match_format_year a b c d rest :
  is_decimal a = true -> is_decimal b = true ->
  is_decimal c = true -> is_decimal d = true ->
  match_format (a :: b :: c :: d :: 45 :: rest)
  = head (flat_map (fun m =>
          flat_map (fun r2 =>
          List.map (fun dd => ([a; b; c; d], fst m, fst dd, snd dd)) (day_group r2))
            (dash (snd m)))
            (month_group rest)).
Proof.
  intros Ha Hb Hc Hd. unfold match_format, year_group.
  rewrite Ha, Hb, Hc, Hd. cbn [andb flat_map fst snd dash N.eqb Pos.eqb].
  by rewrite !app_nil_r.
Qed.

Lemma small_number (n : N) (k : nat) :
  1 <= n -> n <= N.of_nat k -> In n (List.map N.of_nat (seq 1 k)).
Proof.
  intros Hlo Hhi. apply in_map_iff. exists (N.to_nat n).
  split; [apply N2Nat.id|]. apply in_seq. lia.
Qed.

(** The month and the day on two digits, after the year: the match takes
    both digits of each and leaves nothing. *)
Lemma match_format_digits a b c d m dd :
  is_decimal a = true -> is_decimal b = true ->
  is_decimal c = true -> is_decimal d = true ->
  1 <= m -> m <= 12 -> 1 <= dd -> dd <= 31 ->
  match_format [a; b; c; d; 45; digit_char (m / 10); digit_char m; 45;
                digit_char (dd / 10); digit_char dd]
  = Some ([a; b; c; d], [digit_char (m / 10); digit_char m],
          [digit_char (dd / 10); digit_char dd], [])
  /\ int_of [digit_char (m / 10); digit_char m] = Some m
  /\ int_of [digit_char (dd / 10); digit_char dd] = Some dd.
Proof.
  intros Ha Hb Hc Hd Hm1 Hm2 Hd1 Hd2.
  rewrite match_format_year by assumption.
  pose proof (small_number m 12 Hm1 Hm2) as Hm.
  pose proof (small_number dd 31 Hd1 Hd2) as Hdd.
  clear Hm1 Hm2 Hd1 Hd2. cbn [seq List.map] in Hm, Hdd.
  repeat (destruct Hm as [<- | Hm]); try (by destruct Hm);
    repeat (destruct Hdd as [<- | Hdd]); try (by destruct Hdd);
    vm_compute; auto.
Qed.

Lemma days_in_month_bound y m : days_in_month y m <= 31.
Proof.
  unfold days_in_month.
  destruct (m =? 2); [destruct (is_leap y); lia|].
  destruct ((m =? 4) || (m =? 6) || (m =? 9) || (m =? 11)); lia.
Qed.

Lemma strptime_isoformat d : valid_date d -> strptime (isoformat d) = Ret d.
Proof.
  destruct d as [y m dd]. intros Hdate. pose proof Hdate as Hvalid.
  unfold isoformat. unfold valid_date, in_range in Hvalid. cbn [year month day] in *.
  repeat match goal with
         | Hand : _ && _ = true |- _ => apply andb_true_iff in Hand as [? ?]
         end.
  repeat match goal with Hle : (_ <=? _) = true |- _ => apply N.leb_le in Hle end.
  pose proof (days_in_month_bound y m).
  assert (Hm1 : 1 <= m) by lia. assert (Hm2 : m <= 12) by lia.
  assert (Hd1 : 1 <= dd) by lia. assert (Hd2 : dd <= 31) by lia.
  destruct (match_format_digits _ _ _ _ m dd
              (is_decimal_digit_char (y / 1000)) (is_decimal_digit_char (y / 100))
              (is_decimal_digit_char (y / 10)) (is_decimal_digit_char y)
              Hm1 Hm2 Hd1 Hd2) as (Hformat & Hmonth & Hday).
  unfold strptime.
  rewrite Hformat. cbv beta iota. rewrite Hmonth, Hday, int_of_year by lia. unfold make_date. unfold valid_date in Hdate. cbn [year month day] in Hdate.
  by rewrite Hdate.
Qed.

Lemma record_event_or_overflow uid course n d t dt :
  strptime d = Ret dt ->
  event_with uid course (record n d t)
  = if is_last_day dt then Raise OverflowError
    else Ret (titled_event uid course n t dt).
Proof.
  intros Hd. unfold event_with, due_date_of, title_of, record, subscript. simpl.
  rewrite Hd. simpl. unfold make_all_day. simpl. by destruct (is_last_day dt).
Qed.

End DateExtras.

(** X13: a record whose [due_date] is the ISO text of a date of the
    calendar (year on four digits, month and day on two) is parsed to
    exactly that date, and the body of the loop makes its event, all-day,
    with that date and the identifier drawn; but for the last day of the
    year 9999, where [make_all_day] raises [OverflowError], which the
    [except] clause does not catch. *)
Theorem iso_date_gets_its_event `{UnicodeDb} `{Formatting} `{Serializer}
    course n t d w :
  valid_date d ->
  strptime (isoformat d) = Ret d
  /\ fst (make_event course (record n (isoformat d) t) w)
     = (if is_last_day d then Raise OverflowError
        else Ret (titled_event (uuids w (drawn w)) course n t d))
  /\ skipped OverflowError = false.
Proof.
  intros Hd. pose proof (strptime_isoformat d Hd) as Hparse.
  split; [exact Hparse|]. split; [|reflexivity].
  rewrite make_event_run. cbn [fst]. by apply record_event_or_overflow.
Qed.

Lemma iso_date_gets_its_event_witness :
  @strptime ascii_only (lit "2024-02-29") = Ret (mkdate 2024 2 29)
  /\ fst (@make_event ascii_only sample_formatting (lit "CS")
            (record (lit "Essay 1") (lit "2024-02-29") (lit "Essay")) fresh_world)
     = Ret (titled_event (lit "uid-") (lit "CS") (lit "Essay 1") (lit "Essay")
              (mkdate 2024 2 29)).
Proof.
  destruct (@iso_date_gets_its_event ascii_only sample_formatting sample_serializer
              (lit "CS") (lit "Essay 1") (lit "Essay") (mkdate 2024 2 29) fresh_world)
    as (Hparse & Hevent & _).
  - reflexivity.
  - split; [exact Hparse | exact Hevent].
Defined.

(* ===================================================================== *)
(** * The orchestrator *)
(* ===================================================================== *)

Lemma record_text_tickless n d t :
  tickless n -> tickless d -> tickless t -> tickless (record_text n d t).
Proof.
  intros Hn Hd Ht. unfold record_text.
  repeat (apply Forall_app; split); try assumption; repeat constructor; discriminate.
Qed.

(** The extractor makes no event: the source of identifiers is as it
    was. *)
Lemma extract_supply syllabus model w :
  uuids (snd (extract_deadlines_from_syllabus_tool syllabus model w)) = uuids w
  /\ drawn (snd (extract_deadlines_from_syllabus_tool syllabus model w)) = drawn w.
Proof.
  unfold extract_deadlines_from_syllabus_tool, mbind, print, lift, ret.
  cbn [disk console uuids drawn].
  destruct (bind (model _) _) as [v|e]; [by split|].
  destruct (is_JSONDecodeError e || is_AttributeError e); [|by split].
  destruct (bind (read_response _) get_text); by split.
Qed.

Section Orchestrator.
Context `{UnicodeDb} `{Formatting} `{Serializer}.
Context {table : Type} (DataFrame : value -> result table).
Context (gemini_model : str -> result response).

(** The orchestrator after an extraction that returned something truthy:
    the table is made, then the calendar. *)
Lemma process_truthy course syllabus w v w1 :
  extract_deadlines_from_syllabus_tool syllabus gemini_model w = (Ret v, w1) ->
  truthy v = true ->
  process_syllabus DataFrame gemini_model course syllabus w
  = match DataFrame v with
    | Raise e => (Raise e, w1)
    | Ret df =>
      match generate_ical_file_tool course v (lit "calendars") w1 with
      | (Ret p, w2) => (Ret (success_message, Some df, Some p), w2)
      | (Raise e, w2) => (Raise e, w2)
      end
    end.
Proof.
  intros Hextract Htruthy. unfold process_syllabus, mbind at 1. rewrite Hextract, Htruthy.
  cbn [negb]. unfold mbind, lift, ret. destruct (DataFrame v) as [df|e]; [|reflexivity].
  destruct (generate_ical_file_tool course v (lit "calendars") w1) as [[p|e] w2];
    reflexivity.
Qed.

Lemma process_returned course syllabus w msg df path w' :
  process_syllabus DataFrame gemini_model course syllabus w = (Ret (msg, df, path), w') ->
  (msg = failure_message /\ df = None /\ path = None /\ disk w' = disk w)
  \/ (msg = success_message /\ is_Some df
      /\ path = Some (schedule_path course (lit "calendars"))
      /\ is_file (schedule_path course (lit "calendars")) (disk w') = true
      /\ is_dir (lit "calendars") (disk w') = true).
Proof.
  pose proof (extract_disk syllabus gemini_model w) as Hdisk.
  destruct (extract_deadlines_from_syllabus_tool syllabus gemini_model w)
    as [[v|e] w1] eqn:Hextract; cbn [snd] in Hdisk.
  - destruct (truthy v) eqn:Htruthy.
    + rewrite (process_truthy course syllabus w v w1 Hextract Htruthy).
      destruct (DataFrame v) as [t|e]; [|discriminate].
      destruct (generate_ical_file_tool course v (lit "calendars") w1)
        as [[p|e] w2] eqn:Hrun; [|discriminate].
      intros [= <- <- <- <-]. right.
      destruct (generate_returned _ _ _ _ _ _ Htruthy Hrun)
        as (items & cal & Hiter & Hcal & Hcan & _).
      destruct (generate_writes _ _ _ _ _ _ Htruthy Hiter Hcal Hcan) as (w3 & Hrun3 & Hdisk3).
      rewrite Hrun in Hrun3. injection Hrun3 as -> <-.
      split; [reflexivity|]. split; [by eexists|]. split; [reflexivity|].
      rewrite Hdisk3. split.
      * unfold is_file, put_file. cbn [files]. apply bool_decide_eq_true.
        rewrite lookup_insert_eq. by eexists.
      * apply (is_dir_with_dirs_true (lit "calendars")). by left.
    + unfold process_syllabus, mbind. rewrite Hextract, Htruthy. cbn [negb]. unfold ret.
      intros [= <- <- <- <-]. by left.
  - unfold process_syllabus, mbind. rewrite Hextract. discriminate.
Qed.

Lemma process_non_list course syllabus w v w1 df :
  extract_deadlines_from_syllabus_tool syllabus gemini_model w = (Ret v, w1) ->
  truthy v = true -> (forall l, v <> VList l) ->
  DataFrame v = Ret df ->
  can_make (lit "calendars") (disk w) ->
  exists w',
    process_syllabus DataFrame gemini_model course syllabus w = (Raise TypeError, w')
    /\ disk w' = with_dirs [lit "calendars"] (disk w).
Proof.
  intros Hextract Htruthy Hlist Hdf Hcan.
  pose proof (extract_disk syllabus gemini_model w) as Hdisk.
  rewrite Hextract in Hdisk. cbn [snd] in Hdisk. rewrite <- Hdisk in Hcan.
  destruct (generate_non_list course v (lit "calendars") w1 Htruthy Hlist Hcan)
    as (w' & Hrun & Hdisk').
  exists w'. rewrite (process_truthy course syllabus w v w1 Hextract Htruthy), Hdf, Hrun.
  split; [reflexivity|]. by rewrite Hdisk', Hdisk.
Qed.

Lemma process_table_fails course syllabus w v w1 e :
  extract_deadlines_from_syllabus_tool syllabus gemini_model w = (Ret v, w1) ->
  truthy v = true ->
  DataFrame v = Raise e ->
  process_syllabus DataFrame gemini_model course syllabus w = (Raise e, w1)
  /\ disk w1 = disk w.
Proof.
  intros Hextract Htruthy Hdf.
  pose proof (extract_disk syllabus gemini_model w) as Hdisk.
  rewrite Hextract in Hdisk.
  by rewrite (process_truthy course syllabus w v w1 Hextract Htruthy), Hdf.
Qed.

End Orchestrator.

Section EndToEnd.
Context `{UnicodeDb} `{Formatting} `{Serializer}.
Context {table : Type} (DataFrame : value -> result table).

Lemma clean_record_text n d t text :
  tickless n -> tickless d -> tickless t ->
  text = record_text n d t \/ text = fenced (record_text n d t) ->
  clean_response text = record_text n d t.
Proof.
  intros Hn Hd Ht [-> | ->].
  - rewrite clean_unfence, strip_record_text.
    by apply unfence_none, record_text_tickless.
  - rewrite clean_fenced. by apply unfence_none, record_text_tickless.
Qed.

Lemma process_record_text course syllabus n d t dt df text w :
  plain n -> plain d -> plain t ->
  text = record_text n d t \/ text = fenced (record_text n d t) ->
  strptime d = Ret dt ->
  is_last_day dt = false ->
  DataFrame (VList [record n d t]) = Ret df ->
  can_write (lit "calendars") (schedule_path course (lit "calendars")) (disk w) ->
  exists w',
    process_syllabus DataFrame (answers text) course syllabus w
    = (Ret (success_message, Some df, Some (schedule_path course (lit "calendars"))), w')
    /\ files (disk w') !! schedule_path course (lit "calendars")
       = Some (concat (calendar_lines
                         [titled_event (uuids w (drawn w)) course n t dt])).
Proof.
  intros [Hn Hn'] [Hd Hd'] [Ht Ht'] Htext Hdate Hlast Hdf Hcan.
  pose proof (extract_answer syllabus text w) as Hanswer.
  pose proof (extract_disk syllabus (answers text) w) as Hdisk.
  pose proof (extract_supply syllabus (answers text) w) as [Hu Hk].
  rewrite (clean_record_text n d t text Hn' Hd' Ht' Htext) in Hanswer.
  rewrite loads_record_text in Hanswer by assumption.
  destruct (extract_deadlines_from_syllabus_tool syllabus (answers text) w)
    as [r w1] eqn:Hextract.
  cbn [fst snd] in Hanswer, Hdisk, Hu, Hk. subst r.
  rewrite (process_truthy DataFrame (answers text) course syllabus w _ w1 Hextract eq_refl).
  rewrite Hdf. rewrite <- Hdisk in Hcan.
  destruct (record_event (uuids w1 (drawn w1)) course n d t dt Hdate Hlast) as [Hevent Hdraws].
  assert (Hcal : fst (add_events course [record n d t] new_calendar w1)
                 = Ret [titled_event (uuids w (drawn w)) course n t dt]).
  { cbn [add_events]. rewrite make_event_run, Hevent, Hdraws. cbn. by rewrite Hu, Hk. }
  destruct (generate_writes course (VList [record n d t]) (lit "calendars") _ _ w1
              eq_refl eq_refl Hcal Hcan) as (w' & Hrun & Hdisk').
  exists w'. rewrite Hrun. split; [reflexivity|].
  rewrite Hdisk'. unfold put_file. cbn [files]. apply lookup_insert_eq.
Qed.

End EndToEnd.

(** X16: a run of the orchestrator that returns has either reported the
    failure, with no table and no path and the disk as it was, or reported
    success with a table and the path [calendars/<name>_schedule.ics]; in
    that case the file exists in the directory [calendars]. Success is
    never reported with an empty path. *)
Theorem success_names_the_written_schedule `{UnicodeDb} `{Formatting} `{Serializer}
    {table : Type} (DataFrame : value -> result table)
    (gemini_model : str -> result response) course syllabus w msg df path w' :
  process_syllabus DataFrame gemini_model course syllabus w = (Ret (msg, df, path), w') ->
  (msg = failure_message /\ df = None /\ path = None /\ disk w' = disk w)
  \/ (msg = success_message /\ is_Some df
      /\ path = Some (schedule_path course (lit "calendars"))
      /\ is_file (schedule_path course (lit "calendars")) (disk w') = true
      /\ is_dir (lit "calendars") (disk w') = true).
Proof. apply process_returned. Qed.

Lemma success_names_the_written_schedule_witness :
  let run := @process_syllabus ascii_only sample_formatting sample_serializer unit
               (fun _ => Ret tt)
               (answers (record_text (lit "Essay 1") (lit "2025-09-15") (lit "Essay")))
               (lit "CS 101") (lit "Essay 1 is due on September 15.") fresh_world in
  fst run = Ret (success_message, Some tt, Some (lit "calendars/CS101_schedule.ics"))
  /\ is_file (lit "calendars/CS101_schedule.ics") (disk (snd run)) = true.
Proof.
  cbv zeta.
  assert (Hrun :
    @process_syllabus ascii_only sample_formatting sample_serializer unit
      (fun _ => Ret tt)
      (answers (record_text (lit "Essay 1") (lit "2025-09-15") (lit "Essay")))
      (lit "CS 101") (lit "Essay 1 is due on September 15.") fresh_world
    = (Ret (success_message, Some tt, Some (lit "calendars/CS101_schedule.ics")),
       snd (@process_syllabus ascii_only sample_formatting sample_serializer unit
              (fun _ => Ret tt)
              (answers (record_text (lit "Essay 1") (lit "2025-09-15") (lit "Essay")))
              (lit "CS 101") (lit "Essay 1 is due on September 15.") fresh_world))).
  { vm_compute. reflexivity. }
  destruct (@success_names_the_written_schedule ascii_only sample_formatting
              sample_serializer unit _ _ _ _ _ _ _ _ _ Hrun)
    as [(Hmsg & _) | (_ & _ & _ & Hfile & _)].
  - discriminate Hmsg.
  - split; [by rewrite Hrun | exact Hfile].
Defined.

(** X17: when the model answers with JSON that is truthy but no array (an
    object around the array, a text, a number) and the table can be made
    from it, the orchestrator does not report the failure: the calendar
    builder raises [TypeError], which nothing catches, after the directory
    [calendars] was made. *)
Theorem non_list_answer_raises_type_error `{UnicodeDb} `{Formatting} `{Serializer}
    {table : Type} (DataFrame : value -> result table)
    (gemini_model : str -> result response) course syllabus w v w1 df :
  extract_deadlines_from_syllabus_tool syllabus gemini_model w = (Ret v, w1) ->
  truthy v = true ->
  (forall l, v <> VList l) ->
  DataFrame v = Ret df ->
  can_make (lit "calendars") (disk w) ->
  exists w',
    process_syllabus DataFrame gemini_model course syllabus w = (Raise TypeError, w')
    /\ disk w' = with_dirs [lit "calendars"] (disk w).
Proof. apply process_non_list. Qed.

Lemma non_list_answer_raises_type_error_witness :
  exists w',
    @process_syllabus ascii_only sample_formatting sample_serializer unit
      (fun _ => Ret tt)
      (answers (dq "{'deadlines': [{'assignment_name': 'Essay 1', 'due_date': '2025-09-15', 'assignment_type': 'Essay'}]}"))
      (lit "CS 101") (lit "Essay 1 is due on September 15.") fresh_world
    = (Raise TypeError, w')
    /\ disk w' = with_dirs [lit "calendars"] empty_disk.
Proof.
  apply (@non_list_answer_raises_type_error ascii_only sample_formatting sample_serializer
           unit (fun _ => Ret tt) _ (lit "CS 101") _ fresh_world
           (VDict [(lit "deadlines",
                    VList [record (lit "Essay 1") (lit "2025-09-15") (lit "Essay")])])
           {| disk := empty_disk; console := [MsgUsingGemini; MsgExtracted];
              uuids := sample_uuids; drawn := 0 |} tt).
  - vm_compute. reflexivity.
  - reflexivity.
  - discriminate.
  - reflexivity.
  - split; [discriminate|]. repeat constructor.
Defined.

(** X18: when the table cannot be made from what was extracted, the
    exception of [pd.DataFrame] leaves the orchestrator before the calendar
    builder is called: the disk is as it was. *)
Theorem table_failure_stops_before_the_calendar `{UnicodeDb} `{Formatting} `{Serializer}
    {table : Type} (DataFrame : value -> result table)
    (gemini_model : str -> result response) course syllabus w v w1 e :
  extract_deadlines_from_syllabus_tool syllabus gemini_model w = (Ret v, w1) ->
  truthy v = true ->
  DataFrame v = Raise e ->
  process_syllabus DataFrame gemini_model course syllabus w = (Raise e, w1)
  /\ disk w1 = disk w.
Proof. apply process_table_fails. Qed.

Lemma table_failure_stops_before_the_calendar_witness :
  @process_syllabus ascii_only sample_formatting sample_serializer unit
    (fun v => match v with VList _ => Ret tt | _ => Raise ValueError end)
    (answers (dq "'No deadlines found.'"))
    (lit "CS 101") (lit "Welcome to the course.") fresh_world
  = (Raise ValueError, {| disk := empty_disk; console := [MsgUsingGemini; MsgExtracted];
                          uuids := sample_uuids; drawn := 0 |}).
Proof.
  apply (@table_failure_stops_before_the_calendar ascii_only sample_formatting
           sample_serializer unit
           (fun v => match v with VList _ => Ret tt | _ => Raise ValueError end)
           _ (lit "CS 101") _ fresh_world (VStr (lit "No deadlines found."))).
  - vm_compute. reflexivity.
  - reflexivity.
  - reflexivity.
Defined.

(** X19: end to end, for an answer in the form the prompt asks for. When
    the model answers with the JSON text of one record, bare or between
    the fences, whose three texts hold no backquote, no double quote, no
    backslash and no control character and whose date parses to a day
    other than the last of the year 9999, the orchestrator reports success
    with the table and the path of the calendar file, and the file holds
    the lines of a calendar with exactly the event of that record, under
    the identifier drawn for it. The texts written (course name, name and
    type) are taken to be texts that the encoding of the file can hold. *)
Theorem well_formed_answer_is_scheduled `{UnicodeDb} `{Formatting} `{Serializer}
    {table : Type} (DataFrame : value -> result table)
    course syllabus n d t dt df text w :
  plain n -> plain d -> plain t ->
  encodable course -> encodable n -> encodable t ->
  text = record_text n d t \/ text = fenced (record_text n d t) ->
  strptime d = Ret dt ->
  is_last_day dt = false ->
  DataFrame (VList [record n d t]) = Ret df ->
  can_write (lit "calendars") (schedule_path course (lit "calendars")) (disk w) ->
  exists w',
    process_syllabus DataFrame (answers text) course syllabus w
    = (Ret (success_message, Some df, Some (schedule_path course (lit "calendars"))), w')
    /\ files (disk w') !! schedule_path course (lit "calendars")
       = Some (concat (calendar_lines
                         [titled_event (uuids w (drawn w)) course n t dt])).
Proof.
  intros Hn Hd Ht _ _ _. by apply process_record_text.
Qed.

Lemma well_formed_answer_is_scheduled_witness :
  exists w',
    @process_syllabus ascii_only sample_formatting sample_serializer unit
      (fun _ => Ret tt)
      (answers (fenced (record_text (lit "Essay 1") (lit "2025-09-15") (lit "Essay"))))
      (lit "CS 101") (lit "Essay 1 is due on September 15.") fresh_world
    = (Ret (success_message, Some tt, Some (lit "calendars/CS101_schedule.ics")), w')
    /\ files (disk w') !! lit "calendars/CS101_schedule.ics"
       = Some (lit "BEGIN:VCALENDAR" ++ [10] ++ lit "BEGIN:VEVENT" ++ [10]
               ++ lit "DTSTART;VALUE=DATE:20250915" ++ [10]
               ++ lit "SUMMARY:[CS 101] - Essay 1 (Essay)" ++ [10]
               ++ lit "UID:uid-" ++ [10]
               ++ lit "END:VEVENT" ++ [10] ++ lit "END:VCALENDAR").
Proof.
  apply (@well_formed_answer_is_scheduled ascii_only sample_formatting sample_serializer
           unit (fun _ => Ret tt) (lit "CS 101") (lit "Essay 1 is due on September 15.")
           (lit "Essay 1") (lit "2025-09-15") (lit "Essay") (mkdate 2025 9 15) tt
           (fenced (record_text (lit "Essay 1") (lit "2025-09-15") (lit "Essay")))
           fresh_world).
  - split; repeat constructor; discriminate.
  - split; repeat constructor; discriminate.
  - split; repeat constructor; discriminate.
  - repeat constructor.
  - repeat constructor.
  - repeat constructor.
  - by right.
  - reflexivity.
  - reflexivity.
  - reflexivity.
  - split; [discriminate|]. split; [|reflexivity]. repeat constructor.
Defined.

Lemma lstrip_blank s : Forall (fun c => isspace c = true) s -> lstrip s = [].
Proof.
  induction 1 as [|c s Hc _ IH]; [reflexivity|]. cbn [lstrip]. by rewrite Hc.
Qed.

Lemma clean_blank text :
  Forall (fun c => isspace c = true) text -> clean_response text = [].
Proof.
  intros Hblank. unfold clean_response, strip. by rewrite (lstrip_blank text Hblank).
Qed.

(** X20: an answer that is empty or holds only whitespace is stripped to
    the empty text, which [json.loads] refuses: the extractor prints the
    parse error and the orchestrator reports the failure, with no table
    and no path, and nothing written. *)
Theorem blank_answer_reports_failure `{UnicodeDb} `{Formatting} `{Serializer}
    {table : Type} (DataFrame : value -> result table) course syllabus text w :
  Forall (fun c => isspace c = true) text ->
  process_syllabus DataFrame (answers text) course syllabus w
  = (Ret (failure_message, None, None),
     {| disk := disk w;
        console := console w ++ [MsgUsingGemini; MsgParseError JSONDecodeError text];
        uuids := uuids w; drawn := drawn w |}).
Proof.
  intros Hblank.
  unfold process_syllabus, extract_deadlines_from_syllabus_tool, answers,
    mbind, print, lift, ret.
  cbn [bind get_text read_response disk console uuids drawn].
  rewrite (clean_blank text Hblank). cbn. by rewrite <- app_assoc.
Qed.

Lemma blank_answer_reports_failure_witness :
  @process_syllabus ascii_only sample_formatting sample_serializer unit
    (fun _ => Ret tt) (answers [32; 10; 9]) (lit "CS 101") (lit "Welcome.") fresh_world
  = (Ret (failure_message, None, None),
     {| disk := empty_disk;
        console := [MsgUsingGemini; MsgParseError JSONDecodeError [32; 10; 9]];
        uuids := sample_uuids; drawn := 0 |}).
Proof.
  apply (@blank_answer_reports_failure ascii_only sample_formatting sample_serializer
           unit (fun _ => Ret tt) (lit "CS 101") (lit "Welcome.") [32; 10; 9] fresh_world).
  repeat constructor.
Defined.

